(** * Mesh routing layer of the ATWINC1500 P2P driver (winc_p2p.c / winc_p2p.h)

    A shallow embedding of the routing table, the beacon ingest path, the
    stale-route sweep, the route selector and the packet forwarder, and the
    properties of the design document that concern them.

    Conventions.
    - A C unsigned integer of width w is a [Z]; where the C arithmetic can
      leave the range the wrap-around is written out ([u8], [u16], [u32]).
    - The array [nodes[MESH_MAX_NODES]] is a [list MESH_NODE] of length
      [MESH_MAX_NODES], read with [!!] and written with [alter].  A read or
      write past the array is undefined behaviour in C; [well_formed] states
      the bounds under which it cannot happen, and every state reached from
      [mesh_init] is shown to satisfy it.
    - A pointer into the array ([MESH_NODE *node]) is the index of the slot
      it points to; [NULL] is [None].
    - The file-scope variables are the fields of [globals]; every function
      is a computation [M A] that threads them and collects what it prints.
    - The [fd] argument is only handed on to the radio and is left out.
      [time_us_32()] and [hif_put()] belong to the platform: their results
      are arguments of the functions that call them. *)

From Stdlib Require Import ZArith String Lia.
From stdpp Require Import base list.

Local Open Scope string_scope.
Local Open Scope list_scope.
Local Open Scope Z_scope.

(** ** Fixed-width unsigned arithmetic *)

Definition u8 (z : Z) : Z := z mod 2 ^ 8.
Definition u16 (z : Z) : Z := z mod 2 ^ 16.
Definition u32 (z : Z) : Z := z mod 2 ^ 32.

(** ** winc_p2p.h *)

Definition P2P_MODE_IDLE : Z := 0.
Definition P2P_MODE_LISTEN : Z := 1.
Definition P2P_MODE_SEARCH : Z := 2.

Definition P2P_CHAN_1 : Z := 1.
Definition P2P_LISTEN_CHAN : Z := P2P_CHAN_1.

Definition MESH_MAX_NODES : Z := 8.
Definition MESH_BEACON_INTERVAL : Z := 5000.
Definition MESH_ROUTE_TIMEOUT : Z := 30000.
Definition MESH_MAX_HOPS : Z := 4.

Definition MESH_MSG_BEACON : Z := 1.
Definition MESH_MSG_DATA : Z := 2.
Definition MESH_MSG_ROUTE_REQ : Z := 3.
Definition MESH_MSG_ROUTE_RESP : Z := 4.
Definition MESH_MSG_ACK : Z := 5.

(** Mesh node information. *)
Record MESH_NODE := {
  node_id : Z;
  mac_addr : list Z;
  hop_count : Z;
  next_hop : Z;
  last_update : Z;
  is_active : bool
}.

(** Mesh routing table. *)
Record MESH_ROUTING_TABLE := {
  nodes : list MESH_NODE;
  node_count : Z;
  local_node_id : Z
}.

(** Mesh packet header. *)
Module Hdr.
Record MESH_PKT_HDR := {
  msg_type : Z;
  src_node : Z;
  dst_node : Z;
  hop_count : Z;
  seq_num : Z;
  payload_len : Z
}.
End Hdr.
Abbreviation MESH_PKT_HDR := Hdr.MESH_PKT_HDR.

(** Mesh beacon packet. *)
Module Bcn.
Record MESH_BEACON := {
  hdr : MESH_PKT_HDR;
  node_id : Z;
  node_name : list Z;
  neighbors : list Z;
  neighbor_count : Z
}.
End Bcn.
Abbreviation MESH_BEACON := Bcn.MESH_BEACON.

(** [sizeof(MESH_PKT_HDR)] is 8 and [sizeof(MESH_BEACON)] is 34 (no padding
    is needed: the 16-bit fields of the header sit at even offsets). *)
Definition sizeof_MESH_PKT_HDR : Z := 8.
Definition sizeof_MESH_BEACON : Z := 34.

(** ** Field assignments *)

Definition set_node_id (v : Z) (n : MESH_NODE) : MESH_NODE :=
  {| node_id := v; mac_addr := mac_addr n; hop_count := hop_count n;
     next_hop := next_hop n; last_update := last_update n;
     is_active := is_active n |}.

Definition set_hop_count (v : Z) (n : MESH_NODE) : MESH_NODE :=
  {| node_id := node_id n; mac_addr := mac_addr n; hop_count := v;
     next_hop := next_hop n; last_update := last_update n;
     is_active := is_active n |}.

Definition set_next_hop (v : Z) (n : MESH_NODE) : MESH_NODE :=
  {| node_id := node_id n; mac_addr := mac_addr n; hop_count := hop_count n;
     next_hop := v; last_update := last_update n;
     is_active := is_active n |}.

Definition set_last_update (v : Z) (n : MESH_NODE) : MESH_NODE :=
  {| node_id := node_id n; mac_addr := mac_addr n; hop_count := hop_count n;
     next_hop := next_hop n; last_update := v;
     is_active := is_active n |}.

Definition set_is_active (v : bool) (n : MESH_NODE) : MESH_NODE :=
  {| node_id := node_id n; mac_addr := mac_addr n; hop_count := hop_count n;
     next_hop := next_hop n; last_update := last_update n;
     is_active := v |}.

Definition set_nodes (v : list MESH_NODE) (t : MESH_ROUTING_TABLE)
  : MESH_ROUTING_TABLE :=
  {| nodes := v; node_count := node_count t;
     local_node_id := local_node_id t |}.

Definition set_node_count (v : Z) (t : MESH_ROUTING_TABLE)
  : MESH_ROUTING_TABLE :=
  {| nodes := nodes t; node_count := v; local_node_id := local_node_id t |}.

Definition set_pkt_hop_count (v : Z) (p : MESH_PKT_HDR) : MESH_PKT_HDR :=
  {| Hdr.msg_type := Hdr.msg_type p; Hdr.src_node := Hdr.src_node p;
     Hdr.dst_node := Hdr.dst_node p; Hdr.hop_count := v;
     Hdr.seq_num := Hdr.seq_num p; Hdr.payload_len := Hdr.payload_len p |}.

(** ** Global state variables of winc_p2p.c, and [verbose] *)

Record globals := {
  p2p_enabled : bool;
  mesh_enabled : bool;
  p2p_mode : Z;
  routing_table : MESH_ROUTING_TABLE;
  mesh_seq_num : Z;
  local_node_name : list Z;
  last_beacon_time : Z;
  verbose : Z
}.

Definition set_p2p_enabled (v : bool) (g : globals) : globals :=
  {| p2p_enabled := v; mesh_enabled := mesh_enabled g;
     p2p_mode := p2p_mode g; routing_table := routing_table g;
     mesh_seq_num := mesh_seq_num g; local_node_name := local_node_name g;
     last_beacon_time := last_beacon_time g; verbose := verbose g |}.

Definition set_mesh_enabled (v : bool) (g : globals) : globals :=
  {| p2p_enabled := p2p_enabled g; mesh_enabled := v;
     p2p_mode := p2p_mode g; routing_table := routing_table g;
     mesh_seq_num := mesh_seq_num g; local_node_name := local_node_name g;
     last_beacon_time := last_beacon_time g; verbose := verbose g |}.

Definition set_p2p_mode (v : Z) (g : globals) : globals :=
  {| p2p_enabled := p2p_enabled g; mesh_enabled := mesh_enabled g;
     p2p_mode := v; routing_table := routing_table g;
     mesh_seq_num := mesh_seq_num g; local_node_name := local_node_name g;
     last_beacon_time := last_beacon_time g; verbose := verbose g |}.

Definition set_routing_table (v : MESH_ROUTING_TABLE) (g : globals)
  : globals :=
  {| p2p_enabled := p2p_enabled g; mesh_enabled := mesh_enabled g;
     p2p_mode := p2p_mode g; routing_table := v;
     mesh_seq_num := mesh_seq_num g; local_node_name := local_node_name g;
     last_beacon_time := last_beacon_time g; verbose := verbose g |}.

Definition set_mesh_seq_num (v : Z) (g : globals) : globals :=
  {| p2p_enabled := p2p_enabled g; mesh_enabled := mesh_enabled g;
     p2p_mode := p2p_mode g; routing_table := routing_table g;
     mesh_seq_num := v; local_node_name := local_node_name g;
     last_beacon_time := last_beacon_time g; verbose := verbose g |}.

Definition set_local_node_name (v : list Z) (g : globals) : globals :=
  {| p2p_enabled := p2p_enabled g; mesh_enabled := mesh_enabled g;
     p2p_mode := p2p_mode g; routing_table := routing_table g;
     mesh_seq_num := mesh_seq_num g; local_node_name := v;
     last_beacon_time := last_beacon_time g; verbose := verbose g |}.

Definition set_last_beacon_time (v : Z) (g : globals) : globals :=
  {| p2p_enabled := p2p_enabled g; mesh_enabled := mesh_enabled g;
     p2p_mode := p2p_mode g; routing_table := routing_table g;
     mesh_seq_num := mesh_seq_num g; local_node_name := local_node_name g;
     last_beacon_time := v; verbose := verbose g |}.

(** ** Output and the state monad *)

Inductive printf_arg :=
| Num (z : Z)
| Str (s : list Z).

(** What a call leaves behind outside the globals: lines printed, and the
    payload handed to [mesh_data_handler]. *)
Inductive event :=
| Printf (fmt : string) (args : list printf_arg)
| Dump_hex (data : list Z) (len : Z)
| Data_handled (data : list Z) (len : Z).

Definition M (A : Type) : Type := globals → A * globals * list event.

Definition ret {A} (a : A) : M A := λ g, (a, g, []).

Definition bind {A B} (m : M A) (k : A → M B) : M B :=
  λ g, let '(a, g1, out1) := m g in
       let '(b, g2, out2) := k a g1 in
       (b, g2, out1 ++ out2).

#[global] Instance M_ret : MRet M := @ret.
#[global] Instance M_bind : MBind M := λ A B k m, bind m k.

Definition gets {A} (f : globals → A) : M A := λ g, (f g, g, []).
Definition modify (f : globals → globals) : M unit := λ g, (tt, f g, []).
Definition emit (e : event) : M unit := λ g, (tt, g, [e]).
Definition printf (fmt : string) (args : list printf_arg) : M unit :=
  emit (Printf fmt args).
Definition when (b : bool) (m : M unit) : M unit := if b then m else ret tt.

(** [if (verbose)] and [if (verbose > 1)]. *)
Definition if_verbose (m : M unit) : M unit :=
  v ← gets verbose; when (negb (v =? 0)) m.
Definition if_verbose_gt1 (m : M unit) : M unit :=
  v ← gets verbose; when (1 <? v) m.

(** The three components of a run. *)
Definition result {A} (r : A * globals * list event) : A := r.1.1.
Definition state {A} (r : A * globals * list event) : globals := r.1.2.
Definition output {A} (r : A * globals * list event) : list event := r.2.

(** ** The routing table as a C object *)

(** A zeroed [MESH_NODE] ([memset], and static storage before any call). *)
Definition zero_node : MESH_NODE :=
  {| node_id := 0; mac_addr := replicate 6 0; hop_count := 0; next_hop := 0;
     last_update := 0; is_active := false |}.

#[global] Instance MESH_NODE_inhabited : Inhabited MESH_NODE :=
  populate zero_node.

Definition zero_table : MESH_ROUTING_TABLE :=
  {| nodes := replicate (Z.to_nat MESH_MAX_NODES) zero_node;
     node_count := 0; local_node_id := 0 |}.

(** [routing_table.f = v], [routing_table.nodes[i]] and a write through a
    pointer to slot [i].  A read past the array (undefined in C) yields
    [zero_node] and a write past it is lost. *)
Definition modify_table (f : MESH_ROUTING_TABLE → MESH_ROUTING_TABLE)
  : M unit :=
  modify (λ g, set_routing_table (f (routing_table g)) g).

Definition read_node (i : nat) : M MESH_NODE :=
  gets (λ g, nodes (routing_table g) !!! i).

Definition modify_node (i : nat) (f : MESH_NODE → MESH_NODE) : M unit :=
  modify_table (λ t, set_nodes (alter f i (nodes t)) t).

(** [strncpy(dst, src, n)]: the characters of [src] up to its terminator, at
    most [n] of them, then zeros up to [n] bytes. *)
Fixpoint strncpy (src : list Z) (n : nat) : list Z :=
  match n with
  | O => []
  | S n' =>
      match src with
      | [] => replicate n 0
      | c :: rest => if c =? 0 then replicate n 0 else c :: strncpy rest n'
      end
  end.

(** ** winc_p2p.c: P2P mode *)

(** Enable P2P mode on ATWINC1500; [hif_ok] is what [hif_put] returns. *)
Definition p2p_enable (hif_ok : bool) (channel : Z) : M bool :=
  if_verbose (printf "Enabling P2P mode on channel %u" [Num channel]);;
  let ok := hif_ok in
  (if ok then
     modify (set_p2p_enabled true);;
     modify (set_p2p_mode P2P_MODE_IDLE);;
     if_verbose (printf "P2P mode enabled" [])
   else
     printf "Failed to enable P2P mode" []);;
  mret ok.

(** Disable P2P mode. *)
Definition p2p_disable (hif_ok : bool) : M bool :=
  if_verbose (printf "Disabling P2P mode" []);;
  let ok := hif_ok in
  when ok
    (modify (set_p2p_enabled false);;
     modify (set_p2p_mode P2P_MODE_IDLE);;
     if_verbose (printf "P2P mode disabled" []));;
  mret ok.

(** Start P2P listen mode. *)
Definition p2p_start_listen (channel : Z) : M bool :=
  en ← gets p2p_enabled;
  if negb en then
    printf "P2P mode not enabled" [];;
    mret false
  else
    if_verbose (printf "Starting P2P listen on channel %u" [Num channel]);;
    modify (set_p2p_mode P2P_MODE_LISTEN);;
    mret true.

(** Start P2P device search/discovery. *)
Definition p2p_start_search : M bool :=
  en ← gets p2p_enabled;
  if negb en then
    printf "P2P mode not enabled" [];;
    mret false
  else
    if_verbose (printf "Starting P2P device search" []);;
    modify (set_p2p_mode P2P_MODE_SEARCH);;
    mret true.

(** ** winc_p2p.c: mesh networking *)

(** Initialize mesh networking. *)
Definition mesh_init (node_id : Z) (node_name : list Z) : M bool :=
  if_verbose (printf "Initializing mesh network, node ID: %u, name: %s"
                [Num node_id; Str node_name]);;
  modify (set_routing_table zero_table);;
  modify_table (λ t, {| nodes := nodes t; node_count := node_count t;
                        local_node_id := node_id |});;
  modify_table (set_node_count 0);;
  modify (set_local_node_name (strncpy node_name 15 ++ [0]));;
  modify (set_mesh_seq_num 0);;
  modify (set_last_beacon_time 0);;
  mret true.

(** Enable mesh networking (requires P2P to be enabled first). *)
Definition mesh_enable (time_us_32 : Z) : M bool :=
  en ← gets p2p_enabled;
  if negb en then
    printf "P2P mode must be enabled before mesh networking" [];;
    mret false
  else
    if_verbose (printf "Enabling mesh networking" []);;
    modify (set_mesh_enabled true);;
    modify (set_last_beacon_time (time_us_32 / 1000));;
    p2p_start_listen P2P_LISTEN_CHAN;;
    mret true.

(** Disable mesh networking. *)
Definition mesh_disable : M bool :=
  if_verbose (printf "Disabling mesh networking" []);;
  modify (set_mesh_enabled false);;
  mret true.

(** The loop of [mesh_send_beacon] that adds the active neighbors: [i] is
    the loop counter, [n] the iterations left before [i] reaches
    [node_count]. *)
Fixpoint add_neighbors (ns : list MESH_NODE) (i n : nat)
    (neighbors : list Z) (neighbor_idx : Z) : list Z * Z :=
  match n with
  | O => (neighbors, neighbor_idx)
  | S n' =>
      if neighbor_idx <? MESH_MAX_NODES then
        if is_active (ns !!! i) && (hop_count (ns !!! i) =? 1) then
          add_neighbors ns (S i) n'
            (<[Z.to_nat neighbor_idx := node_id (ns !!! i)]> neighbors)
            (u8 (neighbor_idx + 1))
        else
          add_neighbors ns (S i) n' neighbors neighbor_idx
      else (neighbors, neighbor_idx)
  end.

(** Send mesh beacon to announce presence.  The beacon is built and then
    dropped: the broadcast itself is not written in the source. *)
Definition mesh_send_beacon (time_us_32 : Z) : M bool :=
  en ← gets mesh_enabled;
  if negb en then mret false
  else
    rt ← gets routing_table;
    seq ← gets mesh_seq_num;
    name ← gets local_node_name;
    modify (set_mesh_seq_num (u16 (seq + 1)));;
    let hdr :=
      {| Hdr.msg_type := MESH_MSG_BEACON;
         Hdr.src_node := local_node_id rt;
         Hdr.dst_node := 255;
         Hdr.hop_count := 0;
         Hdr.seq_num := seq;
         Hdr.payload_len := sizeof_MESH_BEACON - sizeof_MESH_PKT_HDR |} in
    let filled :=
      add_neighbors (nodes rt) 0 (Z.to_nat (node_count rt))
        (replicate (Z.to_nat MESH_MAX_NODES) 0) 0 in
    let beacon :=
      {| Bcn.hdr := hdr;
         Bcn.node_id := local_node_id rt;
         Bcn.node_name := strncpy name 15 ++ [0];
         Bcn.neighbors := filled.1;
         Bcn.neighbor_count := filled.2 |} in
    if_verbose_gt1 (printf "Sending mesh beacon, neighbors: %u"
                      [Num (Bcn.neighbor_count beacon)]);;
    modify (set_last_beacon_time (time_us_32 / 1000));;
    mret true.

(** The loop of [mesh_find_route]: [best_node] points at the best slot seen
    so far, [min_hops] is its hop count (255 before any is seen). *)
Fixpoint find_route_loop (ns : list MESH_NODE) (dst_node : Z) (i n : nat)
    (best_node : option nat) (min_hops : Z) : option nat :=
  match n with
  | O => best_node
  | S n' =>
      if (node_id (ns !!! i) =? dst_node) && is_active (ns !!! i)
         && (hop_count (ns !!! i) <? min_hops)
      then find_route_loop ns dst_node (S i) n' (Some i) (hop_count (ns !!! i))
      else find_route_loop ns dst_node (S i) n' best_node min_hops
  end.

(** Find route to destination node. *)
Definition mesh_find_route (dst_node : Z) : M Z :=
  rt ← gets routing_table;
  let best_node :=
    find_route_loop (nodes rt) dst_node 0 (Z.to_nat (node_count rt))
      None 255 in
  match best_node with
  | Some i => mret (next_hop (nodes rt !!! i))
  | None => mret (-1)
  end.

(** Send data through mesh network.  The header is built and then dropped:
    the hand-off to the socket layer is not written in the source. *)
Definition mesh_send_data (dst_node : Z) (data : list Z) (len : Z) : M bool :=
  en ← gets mesh_enabled;
  if negb en then
    printf "Mesh networking not enabled" [];;
    mret false
  else
    next_hop ← mesh_find_route dst_node;
    if next_hop <? 0 then
      printf "No route to destination node %u" [Num dst_node];;
      mret false
    else
      rt ← gets routing_table;
      seq ← gets mesh_seq_num;
      modify (set_mesh_seq_num (u16 (seq + 1)));;
      let hdr :=
        {| Hdr.msg_type := MESH_MSG_DATA;
           Hdr.src_node := local_node_id rt;
           Hdr.dst_node := dst_node;
           Hdr.hop_count := 0;
           Hdr.seq_num := seq;
           Hdr.payload_len := len |} in
      if_verbose (printf "Sending mesh data to node %u via next hop %d"
                    [Num (Hdr.dst_node hdr); Num next_hop]);;
      mret true.

(** Handle received mesh data.  [Data_handled] marks the place where the
    application-specific handling goes. *)
Definition mesh_data_handler (data : list Z) (len : Z) : M unit :=
  if_verbose
    (printf "Received mesh data, length: %u" [Num len];;
     emit (Dump_hex data len));;
  emit (Data_handled data len).

(** Route a packet through the mesh network.  The header is passed by
    pointer: the result carries it as the function leaves it. *)
Definition mesh_route_packet (pkt : MESH_PKT_HDR) (data : list Z)
  : M (bool * MESH_PKT_HDR) :=
  rt ← gets routing_table;
  if Hdr.dst_node pkt =? local_node_id rt then
    mesh_data_handler data (Hdr.payload_len pkt);;
    mret (true, pkt)
  else if MESH_MAX_HOPS <=? Hdr.hop_count pkt then
    if_verbose (printf "Packet exceeded max hops, dropping" []);;
    mret (false, pkt)
  else
    next_hop ← mesh_find_route (Hdr.dst_node pkt);
    if next_hop <? 0 then
      if_verbose (printf "No route to node %u, dropping packet"
                    [Num (Hdr.dst_node pkt)]);;
      mret (false, pkt)
    else
      let pkt := set_pkt_hop_count (u8 (Hdr.hop_count pkt + 1)) pkt in
      if_verbose_gt1 (printf "Routing packet to node %u via hop %d"
                        [Num (Hdr.dst_node pkt); Num next_hop]);;
      mret (true, pkt).

(** The first loop of [mesh_update_routing_table]: the slot below
    [node_count] that holds [id], if any. *)
Fixpoint find_existing (ns : list MESH_NODE) (id : Z) (i n : nat)
  : option nat :=
  match n with
  | O => None
  | S n' =>
      if node_id (ns !!! i) =? id then Some i
      else find_existing ns id (S i) n'
  end.

(** Update routing table from received beacon. *)
Definition mesh_update_routing_table (time_us_32 : Z) (beacon : MESH_BEACON)
  : M unit :=
  let current_time := time_us_32 / 1000 in
  rt ← gets routing_table;
  let node :=
    find_existing (nodes rt) (Bcn.node_id beacon) 0
      (Z.to_nat (node_count rt)) in
  node ← match node with
         | None =>
             if node_count rt <? MESH_MAX_NODES then
               modify_table (set_node_count (u8 (node_count rt + 1)));;
               modify_node (Z.to_nat (node_count rt))
                 (set_node_id (Bcn.node_id beacon));;
               mret (Some (Z.to_nat (node_count rt)))
             else mret None
         | Some i => mret (Some i)
         end;
  match node with
  | Some i =>
      modify_node i
        (set_hop_count (u8 (Hdr.hop_count (Bcn.hdr beacon) + 1)));;
      modify_node i (set_last_update current_time);;
      modify_node i (set_is_active true);;
      nd ← read_node i;
      when (hop_count nd =? 1)
        (modify_node i (set_next_hop (Bcn.node_id beacon)));;
      if_verbose_gt1
        (nd ← read_node i;
         printf "Updated routing table: node %u, hops %u"
           [Num (node_id nd); Num (hop_count nd)])
  | None => mret tt
  end.

(** The loop of [mesh_beacon_handler] that cleans up stale routes. *)
Fixpoint cleanup_stale_routes (current_time : Z) (i n : nat) : M unit :=
  match n with
  | O => mret tt
  | S n' =>
      nd ← read_node i;
      when (is_active nd
            && (MESH_ROUTE_TIMEOUT <? u32 (current_time - last_update nd)))
        (modify_node i (set_is_active false);;
         if_verbose (printf "Route to node %u timed out" [Num (node_id nd)]));;
      cleanup_stale_routes current_time (S i) n'
  end.

(** Handle received mesh beacon: the periodic tick.  [time_us_32] is the
    clock read by the handler, [time_us_32'] the later reading made by
    [mesh_send_beacon]. *)
Definition mesh_beacon_handler (time_us_32 time_us_32' : Z) : M unit :=
  let current_time := time_us_32 / 1000 in
  en ← gets mesh_enabled;
  if negb en then mret tt
  else
    rt ← gets routing_table;
    cleanup_stale_routes current_time 0 (Z.to_nat (node_count rt));;
    last ← gets last_beacon_time;
    when (MESH_BEACON_INTERVAL <? u32 (current_time - last))
      (mesh_send_beacon time_us_32';; mret tt).

(** Check if P2P is enabled / if mesh is enabled. *)
Definition is_p2p_enabled : M bool := gets p2p_enabled.
Definition is_mesh_enabled : M bool := gets mesh_enabled.

(** ** Sequences of calls *)

(** One call of the module's interface, with what the platform answers
    during it.  [mesh_init] is not among them: the properties below are
    about what follows the initialization. *)
Inductive call :=
| Call_p2p_enable (hif_ok : bool) (channel : Z)
| Call_p2p_disable (hif_ok : bool)
| Call_p2p_start_listen (channel : Z)
| Call_p2p_start_search
| Call_mesh_enable (time_us_32 : Z)
| Call_mesh_disable
| Call_mesh_send_beacon (time_us_32 : Z)
| Call_mesh_send_data (dst_node : Z) (data : list Z) (len : Z)
| Call_mesh_route_packet (pkt : MESH_PKT_HDR) (data : list Z)
| Call_mesh_update_routing_table (time_us_32 : Z) (beacon : MESH_BEACON)
| Call_mesh_find_route (dst_node : Z)
| Call_mesh_beacon_handler (time_us_32 time_us_32' : Z)
| Call_mesh_data_handler (data : list Z) (len : Z).

Definition step (c : call) : M unit :=
  match c with
  | Call_p2p_enable hif_ok channel => p2p_enable hif_ok channel;; mret tt
  | Call_p2p_disable hif_ok => p2p_disable hif_ok;; mret tt
  | Call_p2p_start_listen channel => p2p_start_listen channel;; mret tt
  | Call_p2p_start_search => p2p_start_search;; mret tt
  | Call_mesh_enable t => mesh_enable t;; mret tt
  | Call_mesh_disable => mesh_disable;; mret tt
  | Call_mesh_send_beacon t => mesh_send_beacon t;; mret tt
  | Call_mesh_send_data dst data len => mesh_send_data dst data len;; mret tt
  | Call_mesh_route_packet pkt data => mesh_route_packet pkt data;; mret tt
  | Call_mesh_update_routing_table t beacon =>
      mesh_update_routing_table t beacon
  | Call_mesh_find_route dst => mesh_find_route dst;; mret tt
  | Call_mesh_beacon_handler t t' => mesh_beacon_handler t t'
  | Call_mesh_data_handler data len => mesh_data_handler data len
  end.

Fixpoint run (cs : list call) : M unit :=
  match cs with
  | [] => mret tt
  | c :: cs' => step c;; run cs'
  end.

(** The globals after [mesh_init node_id node_name] and then the calls
    [cs], starting from any earlier state [g0]. *)
Definition after_init (g0 : globals) (node_id : Z) (node_name : list Z)
    (cs : list call) : globals :=
  state ((mesh_init node_id node_name;; run cs) g0).

(** ** Reading the table *)

(** The bounds of the C object: eight slots, of which the first
    [node_count] are in use. *)
Definition well_formed (t : MESH_ROUTING_TABLE) : Prop :=
  length (nodes t) = Z.to_nat MESH_MAX_NODES
  ∧ 0 ≤ node_count t ≤ MESH_MAX_NODES.

(** The entries of the table: the slots every loop of the source visits. *)
Definition entries (t : MESH_ROUTING_TABLE) : list MESH_NODE :=
  take (Z.to_nat (node_count t)) (nodes t).

(** What [mesh_update_routing_table] writes through [node], as one function
    of the slot's old contents. *)
Definition refreshed (current_time : Z) (beacon : MESH_BEACON)
    (nd : MESH_NODE) : MESH_NODE :=
  let nd' :=
    set_is_active true
      (set_last_update current_time
         (set_hop_count (u8 (Hdr.hop_count (Bcn.hdr beacon) + 1)) nd)) in
  if hop_count nd' =? 1 then set_next_hop (Bcn.node_id beacon) nd' else nd'.

(** The test of the stale-route loop on one entry. *)
Definition stale (current_time : Z) (nd : MESH_NODE) : bool :=
  MESH_ROUTE_TIMEOUT <? u32 (current_time - last_update nd).

(** What one iteration of the stale-route loop does to its slot. *)
Definition expired (current_time : Z) (nd : MESH_NODE) : MESH_NODE :=
  if is_active nd && stale current_time nd
  then set_is_active false nd else nd.

(** The globals of the boot image, before any call. *)
Definition boot (v : Z) : globals :=
  {| p2p_enabled := false; mesh_enabled := false;
     p2p_mode := P2P_MODE_IDLE; routing_table := zero_table;
     mesh_seq_num := 0; local_node_name := replicate 16 0;
     last_beacon_time := 0; verbose := v |}.

(** A beacon as [mesh_send_beacon] of node [id] fills it, except that the
    header's hop count is [h]. *)
Definition beacon_from (id h : Z) : MESH_BEACON :=
  {| Bcn.hdr :=
       {| Hdr.msg_type := MESH_MSG_BEACON; Hdr.src_node := id;
          Hdr.dst_node := 255; Hdr.hop_count := h; Hdr.seq_num := 0;
          Hdr.payload_len := sizeof_MESH_BEACON - sizeof_MESH_PKT_HDR |};
     Bcn.node_id := id;
     Bcn.node_name := replicate 16 0;
     Bcn.neighbors := replicate 8 0;
     Bcn.neighbor_count := 0 |}.

(** The entry of the table for node [id]: the slot the lookup loop of
    [mesh_update_routing_table] stops at. *)
Definition entry_of (t : MESH_ROUTING_TABLE) (id : Z) : option MESH_NODE :=
  (λ i, nodes t !!! i)
    <$> find_existing (nodes t) id 0 (Z.to_nat (node_count t)).

(** The node ids of the entries, in slot order. *)
Definition entry_ids (t : MESH_ROUTING_TABLE) : list Z :=
  node_id <$> entries t.

(** Slot [j] is an active entry for [dst]: what [mesh_find_route] tests
    first in each iteration. *)
Definition candidate (ns : list MESH_NODE) (dst : Z) (j : nat) : Prop :=
  node_id (ns !!! j) = dst ∧ is_active (ns !!! j) = true.

(** ** Example states and messages *)

(** Node 10 after beacons from the nodes 1 to 8, one second apart. *)
Definition eight_neighbours : globals :=
  after_init (boot 0) 10 [78; 49; 48]
    ((λ k, Call_mesh_update_routing_table (1000000 * k) (beacon_from k 0))
       <$> [1; 2; 3; 4; 5; 6; 7; 8]).

(** Node 1 after a beacon from node 2 at time 0, with the mesh enabled. *)
Definition one_neighbour : globals :=
  after_init (boot 1) 1 [78; 49]
    [Call_p2p_enable true 1; Call_mesh_enable 0;
     Call_mesh_update_routing_table 0 (beacon_from 2 0)].

(** The same node once the mesh has been disabled again. *)
Definition one_neighbour_mesh_off : globals :=
  after_init (boot 1) 1 [78; 49]
    [Call_p2p_enable true 1; Call_mesh_enable 0;
     Call_mesh_update_routing_table 0 (beacon_from 2 0);
     Call_mesh_disable].

(** Node 1 after a beacon from node 5 whose header says 254 hops. *)
Definition far_neighbour : globals :=
  after_init (boot 0) 1 [78; 49]
    [Call_mesh_update_routing_table 0 (beacon_from 5 254)].

(** A data packet from node 5 for node [dst] that has made [h] hops. *)
Definition data_packet (dst h : Z) : MESH_PKT_HDR :=
  {| Hdr.msg_type := MESH_MSG_DATA; Hdr.src_node := 5; Hdr.dst_node := dst;
     Hdr.hop_count := h; Hdr.seq_num := 17; Hdr.payload_len := 3 |}.

(** ** The rest of winc_p2p.c, and its callers *)

(** Format strings are kept without their newline characters. *)

(** The strings "Yes" and "No", as C strings. *)
Definition str_Yes : list Z := [89; 101; 115].
Definition str_No : list Z := [78; 111].

(** The body of the loop of [mesh_print_routing_table]. *)
Fixpoint print_rows (i n : nat) : M unit :=
  match n with
  | O => mret tt
  | S n' =>
      node ← read_node i;
      printf "   %3u    %2u      %3u      %s"
        [Num (node_id node); Num (hop_count node); Num (next_hop node);
         Str (if is_active node then str_Yes else str_No)];;
      print_rows (S i) n'
  end.

(** Print routing table for debugging. *)
Definition mesh_print_routing_table : M unit :=
  printf "=== Mesh Routing Table ===" [];;
  rt ← gets routing_table;
  name ← gets local_node_name;
  printf "Local Node ID: %u (%s)" [Num (local_node_id rt); Str name];;
  printf "Active Nodes: %u" [Num (node_count rt)];;
  printf "Node ID  Hops  Next Hop  Active" [];;
  printf "-------  ----  --------  ------" [];;
  print_rows 0 (Z.to_nat (node_count rt));;
  printf "========================" [].

(** mesh_example.c: the node's identity. *)
Definition MESH_NODE_ID : Z := 1.
(** "PicoNode1" *)
Definition MESH_NODE_NAME : list Z := [80; 105; 99; 111; 78; 111; 100; 101; 49].
Definition P2P_CHAN : Z := 1.

(** mesh_example.c, [main], from "Enable P2P mode" to the check of
    [mesh_enable]: [Some (-1)] when [main] returns there, [None] when it
    goes on to open its sockets. *)
Definition main_start_mesh (hif_ok : bool) (time_us_32 : Z) : M (option Z) :=
  printf "Enabling P2P mode on channel %u..." [Num P2P_CHAN];;
  ok ← p2p_enable hif_ok P2P_CHAN;
  if negb ok then
    printf "ERROR: Failed to enable P2P mode!" [];;
    mret (Some (-1))
  else
    printf "Initializing mesh network..." [];;
    ok ← mesh_init MESH_NODE_ID MESH_NODE_NAME;
    if negb ok then
      printf "ERROR: Failed to initialize mesh!" [];;
      mret (Some (-1))
    else
      printf "Enabling mesh networking..." [];;
      ok ← mesh_enable time_us_32;
      if negb ok then
        printf "ERROR: Failed to enable mesh networking!" [];;
        mret (Some (-1))
      else mret None.

(** ** More ways to read the table *)

(** The node ids [mesh_send_beacon] advertises: the active entries one hop
    away, in slot order. *)
Definition direct_neighbours (t : MESH_ROUTING_TABLE) : list Z :=
  node_id <$> filter (λ nd, is_active nd && (hop_count nd =? 1) = true)
                (entries t).

(** The shape every stored entry keeps: a hop count that fits a byte, and a
    next hop that is the node itself or was never written. *)
Definition entry_ok (nd : MESH_NODE) : Prop :=
  0 ≤ hop_count nd ≤ 255
  ∧ (hop_count nd = 1 → next_hop nd = node_id nd)
  ∧ (next_hop nd = node_id nd ∨ next_hop nd = 0).

(** One row of [mesh_print_routing_table]. *)
Definition table_row (nd : MESH_NODE) : event :=
  Printf "   %3u    %2u      %3u      %s"
    [Num (node_id nd); Num (hop_count nd); Num (next_hop nd);
     Str (if is_active nd then str_Yes else str_No)].

(** Node 1 with the neighbours 2 (direct, fresh at 50 s), 3 (direct, last
    heard at 1 s) and 4 (two hops), the mesh enabled. *)
Definition three_neighbours : globals :=
  after_init (boot 2) 1 [78; 49]
    [Call_p2p_enable true 1; Call_mesh_enable 0;
     Call_mesh_update_routing_table 1000000 (beacon_from 3 0);
     Call_mesh_update_routing_table 2000000 (beacon_from 4 1);
     Call_mesh_update_routing_table 50000000 (beacon_from 2 0)].

(** * Properties *)

(** ** The monad *)

Ltac unfold_M :=
  unfold if_verbose, if_verbose_gt1, modify_node, modify_table, read_node,
    printf, when, emit, mbind, M_bind, bind, mret, M_ret, ret, gets, modify,
    result, state, output in *.

Lemma state_bind {A B} (m : M A) (k : A → M B) g :
  state ((m ≫= k) g) = state (k (result (m g)) (state (m g))).
Proof.
  unfold mbind, M_bind, bind, state, result.
  destruct (m g) as [[a g1] o1]; simpl. by destruct (k a g1) as [[b g2] o2].
Qed.

Lemma result_bind {A B} (m : M A) (k : A → M B) g :
  result ((m ≫= k) g) = result (k (result (m g)) (state (m g))).
Proof.
  unfold mbind, M_bind, bind, state, result.
  destruct (m g) as [[a g1] o1]; simpl. by destruct (k a g1) as [[b g2] o2].
Qed.

Lemma output_bind {A B} (m : M A) (k : A → M B) g :
  output ((m ≫= k) g)
  = output (m g) ++ output (k (result (m g)) (state (m g))).
Proof.
  unfold mbind, M_bind, bind, state, result, output.
  destruct (m g) as [[a g1] o1]; simpl. by destruct (k a g1) as [[b g2] o2].
Qed.

Lemma run_ret {A} (a : A) g : (mret a : M A) g = (a, g, []).
Proof. reflexivity. Qed.

Lemma run_gets {A} (f : globals → A) g : gets f g = (f g, g, []).
Proof. reflexivity. Qed.

Lemma run_modify f g : modify f g = (tt, f g, []).
Proof. reflexivity. Qed.

Lemma run_emit e g : emit e g = (tt, g, [e]).
Proof. reflexivity. Qed.

Lemma run_printf fmt args g : printf fmt args g = (tt, g, [Printf fmt args]).
Proof. reflexivity. Qed.

Lemma state_when b m g :
  state (when b m g) = if b then state (m g) else g.
Proof. by destruct b. Qed.

Lemma state_if_verbose m g :
  state (if_verbose m g) = if negb (verbose g =? 0) then state (m g) else g.
Proof. unfold if_verbose. rewrite state_bind. apply state_when. Qed.

Lemma state_if_verbose_gt1 m g :
  state (if_verbose_gt1 m g) = if 1 <? verbose g then state (m g) else g.
Proof. unfold if_verbose_gt1. rewrite state_bind. apply state_when. Qed.

Lemma state_pair {A} (a : A) g o : state (a, g, o) = g.
Proof. reflexivity. Qed.

Lemma result_pair {A} (a : A) g o : result (a, g, o) = a.
Proof. reflexivity. Qed.

Lemma output_pair {A} (a : A) g o : output (a, g, o) = o.
Proof. reflexivity. Qed.

Create Rewrite HintDb M_simpl.

#[global] Hint Rewrite @state_bind @result_bind @output_bind @run_ret
  @run_gets run_modify run_emit run_printf state_when state_if_verbose
  state_if_verbose_gt1 @state_pair @result_pair @output_pair : M_simpl.

Lemma set_routing_table_same g : set_routing_table (routing_table g) g = g.
Proof. by destruct g. Qed.

Lemma set_nodes_same t : set_nodes (nodes t) t = t.
Proof. by destruct t. Qed.

Lemma state_run_cons c cs g :
  state (run (c :: cs) g) = state (run cs (state (step c g))).
Proof. simpl. by rewrite state_bind. Qed.

Lemma state_run_app cs1 cs2 g :
  state (run (cs1 ++ cs2) g) = state (run cs2 (state (run cs1 g))).
Proof.
  revert g. induction cs1 as [|c cs1 IH]; intros g; [done|].
  rewrite <- app_comm_cons, !state_run_cons. apply IH.
Qed.

(** ** Calls that leave the routing table alone *)

Ltac crush_M :=
  unfold_M; simpl;
  repeat match goal with
         | |- context [if ?b then _ else _] => destruct b; simpl
         | |- context [match ?o with Some _ => _ | None => _ end] =>
             destruct o; simpl
         end;
  try reflexivity.

Lemma mesh_find_route_pure dst g :
  state (mesh_find_route dst g) = g ∧ output (mesh_find_route dst g) = [].
Proof. unfold mesh_find_route. crush_M; done. Qed.

Lemma mesh_route_packet_pure pkt data g :
  state (mesh_route_packet pkt data g) = g.
Proof. unfold mesh_route_packet, mesh_data_handler, mesh_find_route. crush_M. Qed.

Lemma mesh_send_beacon_table t g :
  routing_table (state (mesh_send_beacon t g)) = routing_table g.
Proof. unfold mesh_send_beacon. crush_M. Qed.

Lemma step_other_table c g :
  (∀ t b, c ≠ Call_mesh_update_routing_table t b) →
  (∀ t t', c ≠ Call_mesh_beacon_handler t t') →
  routing_table (state (step c g)) = routing_table g.
Proof.
  intros Hu Hb. destruct c; simpl;
    try (by destruct (Hu _ _ eq_refl)); try (by destruct (Hb _ _ eq_refl));
    unfold p2p_enable, p2p_disable, p2p_start_listen, p2p_start_search,
      mesh_enable, mesh_disable, mesh_send_beacon, mesh_send_data,
      mesh_route_packet, mesh_data_handler, mesh_find_route,
      p2p_start_listen;
    crush_M.
Qed.

(** ** The lookup loop of [mesh_update_routing_table] *)

Lemma find_existing_Some ns id i n k :
  find_existing ns id i n = Some k →
  (i ≤ k < i + n)%nat ∧ node_id (ns !!! k) = id
  ∧ ∀ j, (i ≤ j < k)%nat → node_id (ns !!! j) ≠ id.
Proof.
  revert i. induction n as [|n IH]; intros i; simpl; [done|].
  destruct (node_id (ns !!! i) =? id) eqn:E.
  - intros [= <-]. apply Z.eqb_eq in E. repeat split; [lia..|done|lia].
  - intros H. apply IH in H as (Hk & Hid & Hlt). apply Z.eqb_neq in E.
    repeat split; [lia..|done|].
    intros j Hj. destruct (decide (j = i)) as [->|]; [done|].
    apply Hlt. lia.
Qed.

Lemma find_existing_None ns id i n :
  find_existing ns id i n = None
  ↔ ∀ j, (i ≤ j < i + n)%nat → node_id (ns !!! j) ≠ id.
Proof.
  revert i. induction n as [|n IH]; intros i; simpl.
  - split; [intros _ j; lia|done].
  - destruct (node_id (ns !!! i) =? id) eqn:E.
    + apply Z.eqb_eq in E. split; [done|]. intros H. destruct (H i); [lia|done].
    + apply Z.eqb_neq in E. rewrite IH. split.
      * intros H j Hj. destruct (decide (j = i)) as [->|]; [done|].
        apply H. lia.
      * intros H j Hj. apply H. lia.
Qed.

(** ** [mesh_update_routing_table] as one table update *)

Lemma mesh_update_routing_table_state t b g :
  well_formed (routing_table g) →
  state (mesh_update_routing_table t b g)
  = match find_existing (nodes (routing_table g)) (Bcn.node_id b) 0
            (Z.to_nat (node_count (routing_table g))) with
    | Some i =>
        set_routing_table
          (set_nodes (alter (refreshed (t / 1000) b) i
                        (nodes (routing_table g)))
             (routing_table g)) g
    | None =>
        if node_count (routing_table g) <? MESH_MAX_NODES then
          set_routing_table
            {| nodes :=
                 alter (refreshed (t / 1000) b ∘ set_node_id (Bcn.node_id b))
                   (Z.to_nat (node_count (routing_table g)))
                   (nodes (routing_table g));
               node_count := node_count (routing_table g) + 1;
               local_node_id := local_node_id (routing_table g) |} g
          else g
    end.
Proof.
  intros [Hlen Hcnt]. unfold mesh_update_routing_table, refreshed.
  unfold_M. simpl.
  destruct (find_existing _ _ _ _) as [i|] eqn:Hfind; simpl.
  - apply find_existing_Some in Hfind as (Hi & _ & _).
    rewrite !list_lookup_total_alter_eq
      by (rewrite ?length_alter; unfold MESH_MAX_NODES in *; lia).
    simpl. destruct (u8 _ =? 1); simpl; destruct (1 <? verbose g); simpl;
      unfold set_routing_table, set_nodes; simpl;
      by rewrite !list_alter_alter_eq.
  - destruct (node_count (routing_table g) <? MESH_MAX_NODES) eqn:Hfull;
      simpl; [|done].
    apply Z.ltb_lt in Hfull.
    rewrite !list_lookup_total_alter_eq
      by (rewrite ?length_alter; unfold MESH_MAX_NODES in *; lia).
    assert (u8 (node_count (routing_table g) + 1)
            = node_count (routing_table g) + 1) as ->.
    { unfold u8. apply Z.mod_small. unfold MESH_MAX_NODES in *. lia. }
    simpl. destruct (u8 _ =? 1); simpl; destruct (1 <? verbose g); simpl;
      unfold set_routing_table, set_nodes, set_node_count; simpl;
      by rewrite !list_alter_alter_eq.
Qed.

(** ** The stale-route loop, slot by slot *)

Lemma cleanup_stale_routes_S ct i n g :
  state (cleanup_stale_routes ct i (S n) g)
  = state (cleanup_stale_routes ct (S i) n
             (if is_active (nodes (routing_table g) !!! i)
                 && (MESH_ROUTE_TIMEOUT
                     <? u32 (ct - last_update (nodes (routing_table g) !!! i)))
              then set_routing_table
                     (set_nodes (alter (set_is_active false) i
                                   (nodes (routing_table g)))
                        (routing_table g)) g
              else g)).
Proof.
  simpl. unfold_M. simpl.
  destruct (_ && _); simpl; [destruct (negb _); simpl|];
    by destruct (cleanup_stale_routes _ _ _ _) as [[? ?] ?].
Qed.

Lemma cleanup_stale_routes_state ct i n g :
  ∃ ns',
    state (cleanup_stale_routes ct i n g)
    = set_routing_table (set_nodes ns' (routing_table g)) g
    ∧ length ns' = length (nodes (routing_table g))
    ∧ ∀ j, ns' !! j
           = (if bool_decide (i ≤ j < i + n)%nat then expired ct else id)
               <$> nodes (routing_table g) !! j.
Proof.
  revert i g. induction n as [|n IH]; intros i g.
  - exists (nodes (routing_table g)). split_and!.
    + by rewrite set_nodes_same, set_routing_table_same.
    + done.
    + intros j. rewrite bool_decide_eq_false_2 by lia. by rewrite option_fmap_id.
  - rewrite cleanup_stale_routes_S.
    set (g1 := if _ && _ then _ else g).
    destruct (IH (S i) g1) as (ns' & Hst & Hlen & Hlook).
    assert (Hg1 : g1 = set_routing_table
                    (set_nodes (alter (expired ct) i (nodes (routing_table g)))
                       (routing_table g)) g).
    { subst g1.
      destruct (_ && _) eqn:E.
      - do 2 f_equal. apply list_alter_ext; [|done]. intros x Hx.
        apply list_lookup_total_correct in Hx. rewrite Hx in E.
        unfold expired, stale. by rewrite E.
      - rewrite <- (set_routing_table_same g) at 1.
        rewrite <- (set_nodes_same (routing_table g)) at 1.
        do 2 f_equal. rewrite <- (list_alter_id id (nodes (routing_table g)) i) at 1 by done.
        apply list_alter_ext; [|done]. intros x Hx.
        apply list_lookup_total_correct in Hx. rewrite Hx in E.
        unfold expired, stale. by rewrite E. }
    exists ns'. split_and!.
    + rewrite Hst, Hg1. by destruct g as [? ? ? [] ? ? ? ?].
    + rewrite Hlen, Hg1. simpl. by rewrite length_alter.
    + intros j. rewrite Hlook, Hg1. simpl.
      destruct (decide (j = i)) as [->|Hne].
      * rewrite list_lookup_alter_eq.
        rewrite bool_decide_eq_false_2 by lia.
        rewrite bool_decide_eq_true_2 by lia. by rewrite option_fmap_id.
      * rewrite list_lookup_alter_ne by done.
        destruct (decide (S i ≤ j < S i + n)%nat).
        -- by rewrite !bool_decide_eq_true_2 by lia.
        -- by rewrite !bool_decide_eq_false_2 by lia.
Qed.

(** ** Node ids are never rewritten *)

Lemma node_id_refreshed ct b nd : node_id (refreshed ct b nd) = node_id nd.
Proof. unfold refreshed. by destruct (_ =? 1). Qed.

Lemma node_id_expired ct nd : node_id (expired ct nd) = node_id nd.
Proof. unfold expired. by destruct (_ && _). Qed.

Lemma find_existing_first ns id i n k :
  (i ≤ k < i + n)%nat →
  node_id (ns !!! k) = id →
  (∀ j, (i ≤ j < k)%nat → node_id (ns !!! j) ≠ id) →
  find_existing ns id i n = Some k.
Proof.
  intros Hk Hid Hfirst.
  destruct (find_existing ns id i n) as [k'|] eqn:E.
  - apply find_existing_Some in E as (Hk' & Hid' & Hfirst').
    f_equal. destruct (Nat.lt_trichotomy k k') as [?|[?|?]]; [|done|].
    + destruct (Hfirst' k); [lia|done].
    + destruct (Hfirst k'); [lia|done].
  - rewrite find_existing_None in E. destruct (E k); done.
Qed.

Lemma lookup_total_entries t j :
  well_formed t → (j < Z.to_nat (node_count t))%nat →
  entries t !! j = Some (nodes t !!! j).
Proof.
  intros [Hlen Hcnt] Hj. unfold entries. rewrite lookup_take_lt by done.
  apply list_lookup_lookup_total_lt. unfold MESH_MAX_NODES in *. lia.
Qed.

Lemma length_entries t :
  well_formed t → length (entries t) = Z.to_nat (node_count t).
Proof.
  intros [Hlen Hcnt]. unfold entries. rewrite length_take.
  unfold MESH_MAX_NODES in *. lia.
Qed.

Lemma entry_of_None t id :
  well_formed t → entry_of t id = None ↔ id ∉ entry_ids t.
Proof.
  intros Hwf. unfold entry_of, entry_ids.
  rewrite fmap_None, find_existing_None, list_elem_of_fmap. split.
  - intros H (nd & -> & Hin). apply list_elem_of_lookup in Hin as [j Hj].
    assert (j < Z.to_nat (node_count t))%nat as Hlt.
    { rewrite <- (length_entries t) by done. by eapply lookup_lt_Some. }
    rewrite lookup_total_entries in Hj by done. injection Hj as <-.
    destruct (H j); [lia|done].
  - intros H j Hj Hid. apply H. exists (nodes t !!! j). split; [done|].
    apply list_elem_of_lookup. exists j. apply lookup_total_entries; [done|lia].
Qed.

Lemma entry_of_Some t id nd :
  well_formed t → entry_of t id = Some nd → nd ∈ entries t ∧ node_id nd = id.
Proof.
  intros Hwf. unfold entry_of. intros H.
  apply fmap_Some in H as (i & Hi & ->).
  apply find_existing_Some in Hi as (Hi & Hid & _). split; [|done].
  apply list_elem_of_lookup. exists i. apply lookup_total_entries; [done|lia].
Qed.

(** ** The periodic tick *)

Lemma mesh_beacon_handler_table t t' g :
  routing_table (state (mesh_beacon_handler t t' g))
  = if mesh_enabled g
    then routing_table
           (state (cleanup_stale_routes (t / 1000) 0
                     (Z.to_nat (node_count (routing_table g))) g))
    else routing_table g.
Proof.
  unfold mesh_beacon_handler. autorewrite with M_simpl.
  destruct (mesh_enabled g); simpl; [|done].
  autorewrite with M_simpl.
  match goal with |- context [if ?b then _ else _] => destruct b end; [|done].
  apply mesh_send_beacon_table.
Qed.

Lemma entry_ids_alter f (i : nat) (ns : list MESH_NODE) :
  (∀ x, node_id (f x) = node_id x) →
  node_id <$> alter f i ns = node_id <$> ns.
Proof.
  intros Hf. apply list_eq. intros j. rewrite !list_lookup_fmap.
  destruct (decide (i = j)) as [->|].
  - rewrite list_lookup_alter_eq. destruct (ns !! j); simpl; by rewrite ?Hf.
  - by rewrite list_lookup_alter_ne.
Qed.

Lemma entry_ids_take t : entry_ids t = take (Z.to_nat (node_count t)) (node_id <$> nodes t).
Proof. unfold entry_ids, entries. by rewrite fmap_take. Qed.

Lemma cleanup_stale_routes_table ct g :
  let rt := routing_table g in
  let rt' := routing_table
               (state (cleanup_stale_routes ct 0 (Z.to_nat (node_count rt)) g)) in
  node_count rt' = node_count rt
  ∧ local_node_id rt' = local_node_id rt
  ∧ length (nodes rt') = length (nodes rt)
  ∧ ∀ j, nodes rt' !! j
         = (if bool_decide (j < Z.to_nat (node_count rt))%nat
            then expired ct else id) <$> nodes rt !! j.
Proof.
  intros rt rt'. subst rt'.
  destruct (cleanup_stale_routes_state ct 0 (Z.to_nat (node_count rt)) g)
    as (ns' & -> & Hlen & Hlook).
  simpl. split_and!; [done..|].
  intros j. rewrite Hlook.
  destruct (decide (j < Z.to_nat (node_count rt))%nat).
  - by rewrite !bool_decide_eq_true_2 by lia.
  - by rewrite !bool_decide_eq_false_2 by lia.
Qed.

Lemma step_entry_ids c g :
  well_formed (routing_table g) →
  let rt := routing_table g in
  let rt' := routing_table (state (step c g)) in
  well_formed rt' ∧ local_node_id rt' = local_node_id rt
  ∧ ((node_count rt' = node_count rt ∧ entry_ids rt' = entry_ids rt)
     ∨ (∃ t b, c = Call_mesh_update_routing_table t b
               ∧ entry_of rt (Bcn.node_id b) = None
               ∧ node_count rt < MESH_MAX_NODES
               ∧ node_count rt' = node_count rt + 1
               ∧ entry_ids rt' = entry_ids rt ++ [Bcn.node_id b])).
Proof.
  intros Hwf rt rt'.
  destruct c as [| | | | | | | | |t b| |t t'|];
    try (subst rt'; rewrite step_other_table by done; by auto).
  - (* mesh_update_routing_table *)
    subst rt'. simpl. rewrite mesh_update_routing_table_state by done.
    fold rt. unfold entry_of. fold rt.
    destruct Hwf as [Hlen Hcnt]. fold rt in Hlen, Hcnt.
    destruct (find_existing _ _ _ _) as [i|] eqn:Hfind; simpl.
    + split; [|split; [done|]].
      * split; simpl; [by rewrite length_alter|done].
      * left. split; [done|].
        rewrite !entry_ids_take. simpl.
        by rewrite entry_ids_alter by apply node_id_refreshed.
    + destruct (node_count rt <? MESH_MAX_NODES) eqn:Hfull; simpl.
      * apply Z.ltb_lt in Hfull. unfold well_formed, MESH_MAX_NODES in *.
        split; [|split; [done|]].
        { split; simpl; [by rewrite length_alter|lia]. }
        right. exists t, b. split_and!; [done|by rewrite Hfind|done..|].
        unfold entry_ids, entries. cbn [nodes node_count].
        replace (Z.to_nat (node_count rt + 1))
          with (S (Z.to_nat (node_count rt))) by lia.
        erewrite take_S_r.
        2:{ rewrite list_lookup_alter_eq.
            rewrite (list_lookup_lookup_total_lt (nodes rt)) by lia. done. }
        rewrite take_alter_ge by lia. rewrite fmap_app. simpl.
        by rewrite node_id_refreshed.
      * split; [done|]. split; [done|]. by left.
  - (* mesh_beacon_handler *)
    subst rt'. simpl. rewrite mesh_beacon_handler_table.
    destruct (mesh_enabled g); [|by auto].
    destruct (cleanup_stale_routes_table (t / 1000) g)
      as (Hc & Hl & Hlen & Hlook).
    fold rt in Hc, Hl, Hlen, Hlook |- *.
    set (rt1 := routing_table (state _)) in *.
    unfold well_formed in *.
    rewrite Hlen, Hc, Hl. split; [done|]. split; [done|].
    left. split; [done|]. rewrite !entry_ids_take, Hc. f_equal.
    apply list_eq. intros j. rewrite !list_lookup_fmap, Hlook.
    destruct (nodes rt !! j); simpl; [|done].
    case_bool_decide; simpl; by rewrite ?node_id_expired.
Qed.

(** ** States reached after [mesh_init] *)

Lemma mesh_init_table id name g0 :
  routing_table (state (mesh_init id name g0))
  = {| nodes := replicate (Z.to_nat MESH_MAX_NODES) zero_node;
       node_count := 0; local_node_id := id |}.
Proof. unfold mesh_init. unfold_M. simpl. by destruct (negb _). Qed.

Lemma after_init_nil g0 id name :
  after_init g0 id name [] = state (mesh_init id name g0).
Proof. unfold after_init. by rewrite state_bind. Qed.

Lemma after_init_snoc g0 id name cs c :
  after_init g0 id name (cs ++ [c])
  = state (step c (after_init g0 id name cs)).
Proof.
  unfold after_init. rewrite !state_bind, state_run_app, state_run_cons.
  simpl. by autorewrite with M_simpl.
Qed.

(** What holds of the table in every state reached after [mesh_init]: the
    bounds of the C object, the local identity, distinct node ids, and
    every id in the table was carried by an ingested beacon. *)
Lemma after_init_invariant g0 id name cs :
  let rt := routing_table (after_init g0 id name cs) in
  well_formed rt
  ∧ local_node_id rt = id
  ∧ NoDup (entry_ids rt)
  ∧ ∀ x, x ∈ entry_ids rt →
         ∃ t b, Call_mesh_update_routing_table t b ∈ cs ∧ Bcn.node_id b = x.
Proof.
  induction cs as [|c cs IH] using rev_ind; intros rt; subst rt.
  - rewrite after_init_nil, mesh_init_table.
    split; [split; simpl; [done|unfold MESH_MAX_NODES; lia]|].
    split; [done|]. split; [by constructor|].
    intros x Hx. by apply elem_of_nil in Hx.
  - rewrite after_init_snoc. destruct IH as (Hwf & Hid & Hnd & Hsrc).
    destruct (step_entry_ids c _ Hwf) as (Hwf' & Hid' & Hids).
    split; [done|]. split; [congruence|]. split.
    + destruct Hids as [[_ ->]|(t & b & -> & Hnone & _ & _ & ->)]; [done|].
      apply NoDup_app. split_and!; [done| |apply NoDup_singleton].
      intros x Hx ->%list_elem_of_singleton.
      by apply entry_of_None in Hnone.
    + intros x Hx.
      destruct Hids as [[_ Heq]|(t & b & -> & _ & _ & _ & Heq)];
        rewrite Heq in Hx.
      * destruct (Hsrc x Hx) as (t & b & Hin & Hb).
        exists t, b. split; [|done]. apply elem_of_app. by left.
      * apply elem_of_app in Hx as [Hx|Hx%list_elem_of_singleton].
        -- destruct (Hsrc x Hx) as (t' & b' & Hin & Hb).
           exists t', b'. split; [|done]. apply elem_of_app. by left.
        -- exists t, b. split; [|done]. apply elem_of_app. right.
           by apply list_elem_of_singleton.
Qed.

(** ** Beacon ingest *)

Lemma refreshed_fields ct b nd :
  let nd' := refreshed ct b nd in
  node_id nd' = node_id nd
  ∧ mac_addr nd' = mac_addr nd
  ∧ hop_count nd' = u8 (Hdr.hop_count (Bcn.hdr b) + 1)
  ∧ last_update nd' = ct
  ∧ is_active nd' = true
  ∧ next_hop nd'
    = if hop_count nd' =? 1 then Bcn.node_id b else next_hop nd.
Proof.
  unfold refreshed. simpl.
  destruct (u8 (Hdr.hop_count (Bcn.hdr b) + 1) =? 1) eqn:E; simpl;
    by rewrite ?E.
Qed.

Lemma find_existing_ids ns1 ns2 id i n :
  (∀ j, (i ≤ j < i + n)%nat → node_id (ns1 !!! j) = node_id (ns2 !!! j)) →
  find_existing ns1 id i n = find_existing ns2 id i n.
Proof.
  revert i. induction n as [|n IH]; intros i H; simpl; [done|].
  rewrite (H i) by lia. rewrite IH; [done|]. intros j Hj. apply H. lia.
Qed.

Lemma node_id_lookup_total_alter f (i j : nat) (ns : list MESH_NODE) :
  (∀ x, node_id (f x) = node_id x) →
  node_id (alter f i ns !!! j) = node_id (ns !!! j).
Proof.
  intros Hf. rewrite !list_lookup_total_alt, list_lookup_alter.
  case_decide as Hij; [subst j|done].
  destruct (ns !! i); simpl; by rewrite ?Hf.
Qed.

(** The entry for the sender after [mesh_update_routing_table], when there
    was one before or a free slot for it. *)
Lemma entry_of_after_update t b g :
  well_formed (routing_table g) →
  is_Some (entry_of (routing_table g) (Bcn.node_id b))
  ∨ node_count (routing_table g) < MESH_MAX_NODES →
  ∃ nd0,
    entry_of (routing_table (state (mesh_update_routing_table t b g)))
      (Bcn.node_id b)
    = Some (refreshed (t / 1000) b nd0)
    ∧ node_id nd0 = Bcn.node_id b.
Proof.
  intros Hwf Hroom. rewrite mesh_update_routing_table_state by done.
  destruct Hwf as [Hlen Hcnt]. unfold MESH_MAX_NODES in *.
  unfold entry_of in *.
  destruct (find_existing (nodes (routing_table g)) _ _ _) as [i|] eqn:Hfind.
  - pose proof Hfind as (Hi & Hid & _)%find_existing_Some.
    exists (nodes (routing_table g) !!! i). split; [|done]. simpl.
    rewrite (find_existing_ids _ (nodes (routing_table g))).
    2:{ intros j _. apply node_id_lookup_total_alter, node_id_refreshed. }
    rewrite Hfind. simpl. f_equal.
    apply list_lookup_total_alter_eq. lia.
  - destruct Hroom as [[? [=]]|Hroom].
    apply Z.ltb_lt in Hroom as Hb. rewrite Hb. simpl.
    exists (set_node_id (Bcn.node_id b)
              (nodes (routing_table g) !!! Z.to_nat (node_count (routing_table g)))).
    split; [|done].
    rewrite (find_existing_first _ _ _ _ (Z.to_nat (node_count (routing_table g)))).
    + simpl. f_equal. rewrite list_lookup_total_alter_eq by lia. done.
    + lia.
    + rewrite list_lookup_total_alter_eq by lia. simpl.
      by rewrite node_id_refreshed.
    + intros j Hj. rewrite list_lookup_total_alter_ne by lia.
      rewrite find_existing_None in Hfind. apply Hfind. lia.
Qed.

(** C1, as stated, fails: a beacon from node 7 whose header carries hop
    count 2 gives node 7 an entry with hop count 3 and no next hop. *)
Lemma direct_beacon_hop_count_counterexample :
  ∃ nd,
    entry_of
      (routing_table
         (state (mesh_update_routing_table 0 (beacon_from 7 2)
                   (after_init (boot 0) 1 [78; 49] [])))) 7
    = Some nd
    ∧ hop_count nd = 3 ∧ next_hop nd = 0
    ∧ ¬ (hop_count nd = 1 ∧ next_hop nd = 7).
Proof.
  eexists. split; [vm_compute; reflexivity|]. simpl.
  split; [done|]. split; [done|]. by intros [? _].
Qed.

(** C1, amended: when a beacon with sender node N is ingested and an entry
    for N is produced or refreshed, that entry has
    hop_count = (header hop_count + 1) mod 256, and next_hop is set to N when
    that is 1; so for a header hop_count of 0, which is what
    [mesh_send_beacon] writes, hop_count = 1 and next_hop = N. *)
Theorem direct_beacon_entry t b g :
  well_formed (routing_table g) →
  is_Some (entry_of (routing_table g) (Bcn.node_id b))
  ∨ node_count (routing_table g) < MESH_MAX_NODES →
  ∃ nd,
    entry_of (routing_table (state (mesh_update_routing_table t b g)))
      (Bcn.node_id b) = Some nd
    ∧ node_id nd = Bcn.node_id b
    ∧ hop_count nd = u8 (Hdr.hop_count (Bcn.hdr b) + 1)
    ∧ last_update nd = t / 1000
    ∧ is_active nd = true
    ∧ (hop_count nd = 1 → next_hop nd = Bcn.node_id b)
    ∧ (Hdr.hop_count (Bcn.hdr b) = 0 →
       hop_count nd = 1 ∧ next_hop nd = Bcn.node_id b).
Proof.
  intros Hwf Hroom.
  destruct (entry_of_after_update t b g Hwf Hroom) as (nd0 & Hentry & Hid).
  exists (refreshed (t / 1000) b nd0).
  destruct (refreshed_fields (t / 1000) b nd0)
    as (Hn & _ & Hh & Hl & Ha & Hnext).
  simpl in *. split_and!; [done|congruence|done..| |].
  - intros H1. by rewrite Hnext, H1.
  - intros H0. rewrite Hnext, Hh, H0. done.
Qed.

Lemma direct_beacon_entry_witness :
  ∃ nd,
    entry_of
      (routing_table
         (state (mesh_update_routing_table 5000000 (beacon_from 2 0)
                   one_neighbour))) 2
    = Some nd
    ∧ node_id nd = 2 ∧ hop_count nd = 1 ∧ last_update nd = 5000
    ∧ is_active nd = true ∧ next_hop nd = 2.
Proof.
  destruct (direct_beacon_entry 5000000 (beacon_from 2 0) one_neighbour)
    as (nd & He & Hn & Hh & Hl & Ha & _ & H0).
  - vm_compute. split; [reflexivity|]. split; discriminate.
  - left. vm_compute. eauto.
  - exists nd. destruct H0 as [H1 H2]; [reflexivity|].
    split_and!; done.
Defined.

(** ** A full table *)

(** C2, as stated, fails in one respect: no error is reported.  On the
    full table of node 10 the refused beacon of node 9 and the accepted
    beacon of node 8 give the caller the same thing, no value and no
    output; only the second changes the table. *)
Lemma full_table_refusal_unreported :
  let refused :=
    mesh_update_routing_table 9000000 (beacon_from 9 0) eight_neighbours in
  let accepted :=
    mesh_update_routing_table 9000000 (beacon_from 8 0) eight_neighbours in
  result refused = result accepted
  ∧ output refused = output accepted
  ∧ output refused = []
  ∧ state refused = eight_neighbours
  ∧ state accepted ≠ eight_neighbours.
Proof.
  cbv zeta. split_and!; by vm_compute.
Qed.

(** C2, amended: on a table that holds [MESH_MAX_NODES] entries, a beacon
    from a node that has no entry is dropped silently:
    [mesh_update_routing_table] returns nothing (it is [void]), prints
    nothing and changes no global, so the table still has its 8 entries,
    none of them for the new node, each one as it was. *)
Theorem full_table_refuses_new_node t b g :
  well_formed (routing_table g) →
  node_count (routing_table g) = MESH_MAX_NODES →
  Bcn.node_id b ∉ entry_ids (routing_table g) →
  let r := mesh_update_routing_table t b g in
  (r = (tt, g, []))
  ∧ (length (entries (routing_table (state r))) = 8)%nat
  ∧ (Bcn.node_id b ∉ entry_ids (routing_table (state r)))
  ∧ entries (routing_table (state r)) = entries (routing_table g).
Proof.
  intros Hwf Hfull Hnew r.
  assert (Hr : r = (tt, g, [])).
  { subst r. apply entry_of_None in Hnew; [|done].
    unfold entry_of in Hnew. apply fmap_None in Hnew.
    unfold mesh_update_routing_table. unfold_M. simpl.
    rewrite Hnew.
    assert ((node_count (routing_table g) <? MESH_MAX_NODES) = false) as ->
      by (by rewrite Hfull).
    done. }
  rewrite Hr, state_pair. split_and!; [done| |done..].
  rewrite length_entries by done. by rewrite Hfull.
Qed.

Lemma full_table_refuses_new_node_witness :
  mesh_update_routing_table 9000000 (beacon_from 9 0) eight_neighbours
  = (tt, eight_neighbours, [])
  ∧ entry_ids (routing_table eight_neighbours) = [1; 2; 3; 4; 5; 6; 7; 8].
Proof.
  split; [|by vm_compute].
  apply (full_table_refuses_new_node 9000000 (beacon_from 9 0)
           eight_neighbours).
  - vm_compute. split; [reflexivity|]. split; discriminate.
  - by vm_compute.
  - vm_compute. intros H. repeat (apply elem_of_cons in H as [H|H]; [discriminate H|]).
    by apply elem_of_nil in H.
Defined.

(** C4: a packet for another node whose hop count has reached
    [MESH_MAX_HOPS] is dropped: [mesh_route_packet] returns false, prints
    the hop-limit message when [verbose] is set and nothing else, and leaves
    the header and every global (the routing table among them) as they
    were. *)
Theorem hop_ceiling_drops pkt data g :
  MESH_MAX_HOPS ≤ Hdr.hop_count pkt →
  Hdr.dst_node pkt ≠ local_node_id (routing_table g) →
  mesh_route_packet pkt data g
  = (false, pkt, g,
     if verbose g =? 0 then []
     else [Printf "Packet exceeded max hops, dropping" []]).
Proof.
  intros Hhops Hdst. unfold mesh_route_packet. unfold_M. simpl.
  apply Z.eqb_neq in Hdst. rewrite Hdst.
  apply Z.leb_le in Hhops. rewrite Hhops.
  by destruct (verbose g =? 0).
Qed.

Lemma hop_ceiling_drops_witness :
  mesh_route_packet (data_packet 9 4) [104; 105; 33] one_neighbour
  = (false, data_packet 9 4, one_neighbour,
     [Printf "Packet exceeded max hops, dropping" []]).
Proof.
  apply (hop_ceiling_drops (data_packet 9 4) [104; 105; 33] one_neighbour).
  - by vm_compute.
  - by vm_compute.
Defined.

(** C5: a packet whose destination is the local node is handed to
    [mesh_data_handler] with its payload and [mesh_route_packet] returns
    true, whatever the hop count; the header and the globals are
    untouched. *)
Theorem local_destination_delivers pkt data g :
  Hdr.dst_node pkt = local_node_id (routing_table g) →
  mesh_route_packet pkt data g
  = (true, pkt, g, output (mesh_data_handler data (Hdr.payload_len pkt) g))
  ∧ output (mesh_data_handler data (Hdr.payload_len pkt) g)
    = (if verbose g =? 0 then []
       else [Printf "Received mesh data, length: %u"
               [Num (Hdr.payload_len pkt)];
             Dump_hex data (Hdr.payload_len pkt)])
      ++ [Data_handled data (Hdr.payload_len pkt)].
Proof.
  intros Hdst. unfold mesh_route_packet, mesh_data_handler. unfold_M. simpl.
  apply Z.eqb_eq in Hdst. rewrite Hdst.
  by destruct (verbose g =? 0).
Qed.

Lemma local_destination_delivers_witness :
  mesh_route_packet (data_packet 1 200) [104; 105; 33] one_neighbour
  = (true, data_packet 1 200, one_neighbour,
     [Printf "Received mesh data, length: %u" [Num 3];
      Dump_hex [104; 105; 33] 3;
      Data_handled [104; 105; 33] 3]).
Proof.
  destruct (local_destination_delivers (data_packet 1 200) [104; 105; 33]
              one_neighbour) as [Hr Ho].
  - by vm_compute.
  - rewrite Hr, Ho. by vm_compute.
Defined.

(** X25: a packet for another node, below the hop ceiling, for which
    [mesh_find_route] finds a next hop, is forwarded: [mesh_route_packet]
    returns true with the header's hop count one higher and every other
    header field, and every global, as before. *)
Theorem forwarding_increments_hop_count pkt data g :
  Hdr.dst_node pkt ≠ local_node_id (routing_table g) →
  0 ≤ Hdr.hop_count pkt < MESH_MAX_HOPS →
  0 ≤ result (mesh_find_route (Hdr.dst_node pkt) g) →
  let r := mesh_route_packet pkt data g in
  let pkt' := (result r).2 in
  (result r).1 = true
  ∧ Hdr.hop_count pkt' = Hdr.hop_count pkt + 1
  ∧ Hdr.src_node pkt' = Hdr.src_node pkt
  ∧ Hdr.dst_node pkt' = Hdr.dst_node pkt
  ∧ Hdr.seq_num pkt' = Hdr.seq_num pkt
  ∧ Hdr.msg_type pkt' = Hdr.msg_type pkt
  ∧ Hdr.payload_len pkt' = Hdr.payload_len pkt
  ∧ state r = g.
Proof.
  intros Hdst [Hlo Hhi] Hroute r pkt'. subst pkt' r.
  rewrite mesh_route_packet_pure.
  unfold mesh_route_packet. autorewrite with M_simpl.
  apply Z.eqb_neq in Hdst. rewrite Hdst.
  assert ((MESH_MAX_HOPS <=? Hdr.hop_count pkt) = false) as ->
    by (apply Z.leb_gt; lia).
  autorewrite with M_simpl.
  assert ((result (mesh_find_route (Hdr.dst_node pkt) g) <? 0) = false) as ->
    by (apply Z.ltb_ge; lia).
  autorewrite with M_simpl. simpl.
  split_and!; try done.
  unfold u8, MESH_MAX_HOPS in *. apply Z.mod_small. lia.
Qed.

Lemma forwarding_increments_hop_count_witness :
  result (mesh_route_packet (data_packet 2 3) [104; 105; 33] one_neighbour)
  = (true, data_packet 2 4).
Proof.
  destruct (forwarding_increments_hop_count (data_packet 2 3) [104; 105; 33]
              one_neighbour) as (Hr & Hh & Hs & Hd & Hq & Hm & Hp & _).
  - by vm_compute.
  - by vm_compute.
  - by vm_compute.
  - destruct (result _) as [ok [m s d h q p]]. simpl in *. by subst.
Defined.

(** C7 fails on the code where C9 does, at an active entry whose hop count
    is 255: node 1 holds one entry, for node 5, active, with hop count 255;
    a data packet for node 5 that has made no hop yet is neither for the
    local node nor at the hop ceiling, and [mesh_route_packet] drops it:
    it returns false and the header's hop count is still 0. *)
Theorem forwarding_misses_hop_count_255 :
  let pkt :=
    {| Hdr.msg_type := MESH_MSG_DATA; Hdr.src_node := 3; Hdr.dst_node := 5;
       Hdr.hop_count := 0; Hdr.seq_num := 17; Hdr.payload_len := 3 |} in
  entries (routing_table far_neighbour)
  = [{| node_id := 5; mac_addr := [0; 0; 0; 0; 0; 0]; hop_count := 255;
        next_hop := 0; last_update := 0; is_active := true |}]
  ∧ Hdr.dst_node pkt ≠ local_node_id (routing_table far_neighbour)
  ∧ Hdr.hop_count pkt < MESH_MAX_HOPS
  ∧ mesh_route_packet pkt [104; 105; 33] far_neighbour
    = (false, pkt, far_neighbour, []).
Proof. cbv zeta. split_and!; by vm_compute. Qed.

(** ** The stale-route sweep *)

Lemma expired_set_is_active ct nd :
  expired ct nd = set_is_active (is_active nd && negb (stale ct nd)) nd.
Proof.
  unfold expired. destruct (stale ct nd); by destruct nd as [? ? ? ? ? []].
Qed.

Lemma stale_monotonic_clock ct nd :
  0 ≤ last_update nd ≤ ct → ct < 2 ^ 32 →
  stale ct nd = true ↔ ct - last_update nd > MESH_ROUTE_TIMEOUT.
Proof.
  intros Hle Hct. unfold stale, u32.
  rewrite Z.mod_small by lia. rewrite Z.ltb_lt. lia.
Qed.

Lemma mesh_beacon_handler_disabled t t' g :
  mesh_enabled g = false → mesh_beacon_handler t t' g = (tt, g, []).
Proof. intros H. unfold mesh_beacon_handler. unfold_M. by rewrite H. Qed.

(** C6, as stated, fails while the mesh is disabled: node 1 holds an active
    entry for node 2 last refreshed at time 0; at time 40000 ms, more than
    [MESH_ROUTE_TIMEOUT] later, [mesh_beacon_handler] leaves it active. *)
Lemma sweep_skipped_when_disabled_counterexample :
  let g := one_neighbour_mesh_off in
  let g' := state (mesh_beacon_handler 40000000 40000001 g) in
  entries (routing_table g)
  = [{| node_id := 2; mac_addr := [0; 0; 0; 0; 0; 0]; hop_count := 1;
        next_hop := 2; last_update := 0; is_active := true |}]
  ∧ 40000000 / 1000 - 0 > MESH_ROUTE_TIMEOUT
  ∧ entries (routing_table g') = entries (routing_table g).
Proof. cbv zeta. split_and!; by vm_compute. Qed.

(** C6, amended: while mesh networking is enabled, [mesh_beacon_handler]
    at time [now] clears [is_active] in exactly the entries that were
    active and for which [now - last_update > MESH_ROUTE_TIMEOUT], among
    the entries whose [last_update] is not later than [now]; it removes
    no entry and changes no other field of any entry, no slot past
    [node_count] and not [node_count].  While mesh networking is disabled
    the handler returns at once and changes nothing. *)
Theorem sweep_deactivates_exactly_stale t t' g :
  let now := t / 1000 in
  let rt := routing_table g in
  let rt' := routing_table (state (mesh_beacon_handler t t' g)) in
  0 ≤ t < 2 ^ 32 →
  (mesh_enabled g = true →
   node_count rt' = node_count rt
   ∧ local_node_id rt' = local_node_id rt
   ∧ length (nodes rt') = length (nodes rt)
   ∧ length (entries rt') = length (entries rt)
   ∧ (∀ j nd, entries rt !! j = Some nd →
        ∃ a, entries rt' !! j = Some (set_is_active a nd)
             ∧ (0 ≤ last_update nd ≤ now →
                a = is_active nd
                    && negb (MESH_ROUTE_TIMEOUT <? now - last_update nd)))
   ∧ (∀ j, (Z.to_nat (node_count rt) ≤ j)%nat →
        nodes rt' !! j = nodes rt !! j))
  ∧ (mesh_enabled g = false → mesh_beacon_handler t t' g = (tt, g, [])).
Proof.
  intros now rt rt' Ht.
  split; [|apply mesh_beacon_handler_disabled].
  intros Hen. subst rt'. rewrite mesh_beacon_handler_table, Hen.
  destruct (cleanup_stale_routes_table now g) as (Hc & Hl & Hlen & Hlook).
  fold rt in Hc, Hl, Hlen, Hlook |- *.
  set (rt' := routing_table (state _)) in *.
  split; [done|]. split; [done|]. split; [done|]. split; [|split].
  - unfold entries. rewrite !length_take. by rewrite Hc, Hlen.
  - intros j nd. unfold entries. rewrite Hc.
    rewrite !lookup_take_Some. intros [Hj Hlt].
    exists (is_active nd && negb (stale now nd)). split.
    + apply lookup_take_Some. split; [|done].
      rewrite Hlook, Hj. rewrite bool_decide_eq_true_2 by done. simpl.
      by rewrite expired_set_is_active.
    + intros Hlu. unfold stale, u32. rewrite Z.mod_small; [done|].
      assert (0 ≤ now < 2 ^ 32); [|lia].
      subst now. split; [apply Z.div_pos; lia|].
      apply Z.div_lt_upper_bound; lia.
  - intros j Hj. rewrite Hlook. rewrite bool_decide_eq_false_2 by lia.
    by rewrite option_fmap_id.
Qed.

Lemma sweep_deactivates_exactly_stale_witness :
  (0 ≤ 60000000 < 2 ^ 32)
  ∧ (is_active <$> entries (routing_table three_neighbours))
    = [true; true; true]
  ∧ ((λ nd, 60000000 / 1000 - last_update nd)
       <$> entries (routing_table three_neighbours))
    = [59000; 58000; 10000]
  ∧ (is_active
       <$> entries (routing_table
                      (state (mesh_beacon_handler 60000000 60000001
                                three_neighbours))))
    = [false; false; true]
  ∧ mesh_beacon_handler 40000000 40000001 one_neighbour_mesh_off
    = (tt, one_neighbour_mesh_off, []).
Proof.
  assert (Ht : 0 ≤ 60000000 < 2 ^ 32) by lia.
  assert (Ht' : 0 ≤ 40000000 < 2 ^ 32) by lia.
  destruct (sweep_deactivates_exactly_stale 60000000 60000001
              three_neighbours Ht) as [Hon _].
  destruct Hon as (_ & _ & _ & Hlen & Hact & _); [by vm_compute|].
  destruct (sweep_deactivates_exactly_stale 40000000 40000001
              one_neighbour_mesh_off Ht') as [_ Hoff].
  split; [done|]. split; [by vm_compute|]. split; [by vm_compute|].
  split; [|apply Hoff; by vm_compute].
  assert (Hes : entries (routing_table three_neighbours)
                = [{| node_id := 3; mac_addr := [0; 0; 0; 0; 0; 0];
                      hop_count := 1; next_hop := 3; last_update := 1000;
                      is_active := true |};
                   {| node_id := 4; mac_addr := [0; 0; 0; 0; 0; 0];
                      hop_count := 2; next_hop := 0; last_update := 2000;
                      is_active := true |};
                   {| node_id := 2; mac_addr := [0; 0; 0; 0; 0; 0];
                      hop_count := 1; next_hop := 2; last_update := 50000;
                      is_active := true |}]) by (by vm_compute).
  rewrite Hes in Hact, Hlen.
  apply list_eq. intros j. rewrite list_lookup_fmap.
  destruct j as [|[|[|j]]].
  - destruct (Hact 0%nat _ eq_refl) as (a & -> & Ha).
    simpl. rewrite Ha; [done|]. simpl. by vm_compute.
  - destruct (Hact 1%nat _ eq_refl) as (a & -> & Ha).
    simpl. rewrite Ha; [done|]. simpl. by vm_compute.
  - destruct (Hact 2%nat _ eq_refl) as (a & -> & Ha).
    simpl. rewrite Ha; [done|]. simpl. by vm_compute.
  - rewrite lookup_ge_None_2; [done|]. rewrite Hlen. simpl. lia.
Defined.

(** ** Invariants of the table *)

(** C8: after [mesh_init] and any sequence of calls (beacon ingests among
    them), no two entries of the table carry the same node id; in
    particular no two active ones do. *)
Theorem entries_have_distinct_node_ids g0 id name cs :
  let rt := routing_table (after_init g0 id name cs) in
  NoDup (node_id <$> entries rt)
  ∧ NoDup (node_id <$> filter (λ nd, is_active nd = true) (entries rt)).
Proof.
  intros rt. destruct (after_init_invariant g0 id name cs) as (_ & _ & Hnd & _).
  fold rt in Hnd. split; [done|].
  eapply sublist_NoDup; [exact Hnd|].
  unfold entry_ids. apply fmap_sublist, sublist_filter.
Qed.

Lemma update_inserts t b g :
  well_formed (routing_table g) →
  entry_of (routing_table g) (Bcn.node_id b) = None →
  node_count (routing_table g) < MESH_MAX_NODES →
  node_count (routing_table (state (mesh_update_routing_table t b g)))
  = node_count (routing_table g) + 1.
Proof.
  intros Hwf Hnone Hroom. rewrite mesh_update_routing_table_state by done.
  unfold entry_of in Hnone. apply fmap_None in Hnone. rewrite Hnone.
  apply Z.ltb_lt in Hroom. by rewrite Hroom.
Qed.

(** C10: after [mesh_init] the table is empty; in every state reached from
    there [node_count] is between 0 and [MESH_MAX_NODES] and counts the
    entries; a call never lowers it, and raises it, by exactly one, exactly
    when it is a [mesh_update_routing_table] for a node without an entry
    while the table is below capacity; and the entries already stored stay
    where they are, with their node ids. *)
Theorem node_count_bounded_and_monotone g0 id name cs c :
  let rt := routing_table (after_init g0 id name cs) in
  let rt' := routing_table (after_init g0 id name (cs ++ [c])) in
  node_count (routing_table (after_init g0 id name [])) = 0
  ∧ 0 ≤ node_count rt ≤ MESH_MAX_NODES
  ∧ length (entries rt) = Z.to_nat (node_count rt)
  ∧ node_count rt ≤ node_count rt'
  ∧ (node_count rt' = node_count rt ∨ node_count rt' = node_count rt + 1)
  ∧ (node_count rt' ≠ node_count rt
     ↔ ∃ t b, c = Call_mesh_update_routing_table t b
              ∧ entry_of rt (Bcn.node_id b) = None
              ∧ node_count rt < MESH_MAX_NODES)
  ∧ entry_ids rt `prefix_of` entry_ids rt'.
Proof.
  intros rt rt'.
  destruct (after_init_invariant g0 id name cs) as (Hwf & _ & _ & _).
  fold rt in Hwf. subst rt'. rewrite after_init_snoc.
  destruct (step_entry_ids c _ Hwf) as (_ & _ & Hstep).
  fold rt in Hstep.
  split_and!.
  - by rewrite after_init_nil, mesh_init_table.
  - apply Hwf.
  - apply Hwf.
  - by apply length_entries.
  - destruct Hstep as [[Heq _]|(t & b & _ & _ & _ & Heq & _)]; lia.
  - destruct Hstep as [[Heq _]|(t & b & _ & _ & _ & Heq & _)]; auto.
  - split.
    + intros Hne. destruct Hstep as [[Heq Hx]|(t & b & Hc & Hn & Hr & Hy)];
        [done|]. by exists t, b.
    + intros (t & b & -> & Hnone & Hroom). simpl.
      rewrite update_inserts by done. fold rt. lia.
  - destruct Hstep as [[_ Heq]|(t & b & _ & _ & _ & _ & Heq)];
      rewrite Heq; [done|by apply prefix_app_r].
Qed.

(** C3, as stated, fails: node 1 ingests a beacon that carries its own id
    and gets an entry for itself. *)
Lemma local_node_entry_counterexample :
  let rt :=
    routing_table
      (after_init (boot 0) 1 [78; 49]
         [Call_mesh_update_routing_table 0 (beacon_from 1 0)]) in
  local_node_id rt = 1
  ∧ entry_ids rt = [1]
  ∧ ∃ nd, entry_of rt (local_node_id rt) = Some nd ∧ is_active nd = true.
Proof.
  cbv zeta. split; [by vm_compute|]. split; [by vm_compute|].
  eexists. split; [vm_compute; reflexivity|done].
Qed.

(** C3, amended: after [mesh_init] and any sequence of calls in which no
    ingested beacon carries the local node's own id, the local node id is
    the one given to [mesh_init] and no entry of the table has it.
    ([mesh_update_routing_table] does not compare the sender with
    [local_node_id].) *)
Theorem local_node_absent_without_own_beacon g0 id name cs :
  (∀ t b, Call_mesh_update_routing_table t b ∈ cs → Bcn.node_id b ≠ id) →
  let rt := routing_table (after_init g0 id name cs) in
  local_node_id rt = id
  ∧ (local_node_id rt ∉ entry_ids rt)
  ∧ entry_of rt (local_node_id rt) = None.
Proof.
  intros Hcs rt.
  destruct (after_init_invariant g0 id name cs) as (Hwf & Hid & _ & Hsrc).
  fold rt in Hwf, Hid, Hsrc.
  assert (id ∉ entry_ids rt) as Hnot.
  { intros Hin. destruct (Hsrc _ Hin) as (t & b & Hc & Hb).
    by destruct (Hcs t b Hc). }
  rewrite Hid. split_and!; [done..|]. by apply entry_of_None.
Qed.

Lemma local_node_absent_without_own_beacon_witness :
  entry_ids (routing_table one_neighbour) = [2]
  ∧ local_node_id (routing_table one_neighbour) = 1
  ∧ local_node_id (routing_table one_neighbour)
    ∉ entry_ids (routing_table one_neighbour).
Proof.
  split; [by vm_compute|].
  destruct (local_node_absent_without_own_beacon (boot 1) 1 [78; 49]
              [Call_p2p_enable true 1; Call_mesh_enable 0;
               Call_mesh_update_routing_table 0 (beacon_from 2 0)])
    as (Hid & Hnot & _); [|done].
  intros t b Hin.
  repeat (apply elem_of_cons in Hin as [Hin|Hin]; [try discriminate Hin|]).
  - injection Hin as -> ->. by vm_compute.
  - by apply elem_of_nil in Hin.
Defined.

(** ** The route selector *)

Section Route_loop.

Variables (ns : list MESH_NODE) (dst : Z).

(** The loop either keeps [best_node], when no candidate it visits has a
    hop count below [min_hops], or ends on the first candidate of least hop
    count among those it visits, which is below [min_hops]. *)
Lemma find_route_loop_spec i n best min_hops :
  (find_route_loop ns dst i n best min_hops = best
   ∧ ∀ j, (i ≤ j < i + n)%nat → candidate ns dst j →
          min_hops ≤ hop_count (ns !!! j))
  ∨ (∃ k, find_route_loop ns dst i n best min_hops = Some k
          ∧ (i ≤ k < i + n)%nat
          ∧ candidate ns dst k
          ∧ hop_count (ns !!! k) < min_hops
          ∧ (∀ j, (i ≤ j < i + n)%nat → candidate ns dst j →
                  hop_count (ns !!! k) ≤ hop_count (ns !!! j))
          ∧ (∀ j, (i ≤ j < k)%nat → candidate ns dst j →
                  hop_count (ns !!! k) < hop_count (ns !!! j))).
Proof.
  revert i best min_hops. induction n as [|n IH]; intros i best min_hops.
  { left. split; [done|]. intros j Hj. lia. }
  assert (Hvisit : ∀ (P : nat → Prop) lo hi,
             (∀ j, (S i ≤ j < lo)%nat → candidate ns dst j → P j) →
             (candidate ns dst i → P i) →
             (hi ≤ lo)%nat →
             ∀ j, (i ≤ j < hi)%nat → candidate ns dst j → P j).
  { intros P lo hi Hrest Hi Hlo j Hj Hc.
    destruct (decide (j = i)) as [->|]; [by apply Hi|].
    apply Hrest; [lia|done]. }
  simpl.
  destruct (node_id (ns !!! i) =? dst) eqn:Eid; simpl;
    [destruct (is_active (ns !!! i)) eqn:Eact; simpl;
     [destruct (hop_count (ns !!! i) <? min_hops) eqn:Ehop|]|].
  - (* slot i becomes the best so far *)
    apply Z.eqb_eq in Eid. apply Z.ltb_lt in Ehop. right.
    destruct (IH (S i) (Some i) (hop_count (ns !!! i)))
      as [[-> Hmin]|(k & -> & Hk & Hcand & Hlt & Hmin & Hfirst)].
    + exists i. split; [done|]. split; [lia|]. split; [done|].
      split; [done|]. split.
      * eapply Hvisit; [done|lia|lia].
      * intros j Hj. lia.
    + exists k. split; [done|]. split; [lia|]. split; [done|].
      split; [lia|]. split.
      * eapply Hvisit; [done|lia|lia].
      * eapply Hvisit; [done|lia|lia].
  - (* an active entry for dst, but not closer *)
    apply Z.ltb_ge in Ehop.
    destruct (IH (S i) best min_hops)
      as [[-> Hmin]|(k & -> & Hk & Hcand & Hlt & Hmin & Hfirst)].
    + left. split; [done|]. eapply Hvisit; [done|lia|lia].
    + right. exists k. split; [done|]. split; [lia|]. split; [done|].
      split; [done|]. split.
      * eapply Hvisit; [done|lia|lia].
      * eapply Hvisit; [done|lia|lia].
  - (* inactive *)
    assert (¬ candidate ns dst i) as Hno by (intros [_ ?]; congruence).
    destruct (IH (S i) best min_hops)
      as [[-> Hmin]|(k & -> & Hk & Hcand & Hlt & Hmin & Hfirst)].
    + left. split; [done|]. eapply Hvisit; [done|done|lia].
    + right. exists k. split; [done|]. split; [lia|]. split; [done|].
      split; [done|]. split.
      * eapply Hvisit; [done|done|lia].
      * eapply Hvisit; [done|done|lia].
  - (* another node *)
    apply Z.eqb_neq in Eid.
    assert (¬ candidate ns dst i) as Hno by (by intros [? _]).
    destruct (IH (S i) best min_hops)
      as [[-> Hmin]|(k & -> & Hk & Hcand & Hlt & Hmin & Hfirst)].
    + left. split; [done|]. eapply Hvisit; [done|done|lia].
    + right. exists k. split; [done|]. split; [lia|]. split; [done|].
      split; [done|]. split.
      * eapply Hvisit; [done|done|lia].
      * eapply Hvisit; [done|done|lia].
Qed.

End Route_loop.

(** [mesh_find_route] changes nothing and prints nothing.  It answers -1
    when every active entry for [dst] has hop count 255 (or there is none),
    and otherwise the next hop of the first active entry for [dst] of least
    hop count. *)
Lemma mesh_find_route_spec dst g :
  let ns := nodes (routing_table g) in
  let n := Z.to_nat (node_count (routing_table g)) in
  mesh_find_route dst g = (result (mesh_find_route dst g), g, [])
  ∧ ((result (mesh_find_route dst g) = -1
      ∧ ∀ j, (j < n)%nat → candidate ns dst j → 255 ≤ hop_count (ns !!! j))
     ∨ (∃ k, result (mesh_find_route dst g) = next_hop (ns !!! k)
             ∧ (k < n)%nat
             ∧ candidate ns dst k
             ∧ hop_count (ns !!! k) < 255
             ∧ (∀ j, (j < n)%nat → candidate ns dst j →
                     hop_count (ns !!! k) ≤ hop_count (ns !!! j))
             ∧ (∀ j, (j < k)%nat → candidate ns dst j →
                     hop_count (ns !!! k) < hop_count (ns !!! j)))).
Proof.
  intros ns n. unfold mesh_find_route. unfold_M. simpl. fold ns n.
  destruct (find_route_loop_spec ns dst 0 n None 255)
    as [[-> Hmin]|(k & -> & Hk & Hcand & Hlt & Hmin & Hfirst)]; simpl.
  - split; [done|]. left. split; [done|]. intros j Hj. apply Hmin. lia.
  - split; [done|]. right. exists k.
    split; [done|]. split; [lia|]. split; [done|]. split; [done|]. split.
    + intros j Hj. apply Hmin. lia.
    + intros j Hj. apply Hfirst. lia.
Qed.

(** C9 fails on the code at an active entry whose hop count is 255: after a
    beacon from node 5 with header hop count 254 the table holds one
    entry, for node 5, active, with hop count 255, and [mesh_find_route 5]
    answers -1, "no route". *)
Theorem find_route_misses_hop_count_255 :
  entries (routing_table far_neighbour)
  = [{| node_id := 5; mac_addr := [0; 0; 0; 0; 0; 0]; hop_count := 255;
        next_hop := 0; last_update := 0; is_active := true |}]
  ∧ result (mesh_find_route 5 far_neighbour) = -1.
Proof. split; by vm_compute. Qed.

(** A route is found whenever some active entry for [dst] has a hop count
    below 255 (and the next hops are unsigned, as [uint8_t] makes them). *)
Lemma active_route_is_found dst g j :
  let ns := nodes (routing_table g) in
  (j < Z.to_nat (node_count (routing_table g)))%nat →
  candidate ns dst j →
  hop_count (ns !!! j) < 255 →
  (∀ k, 0 ≤ next_hop (ns !!! k)) →
  0 ≤ result (mesh_find_route dst g).
Proof.
  intros ns Hj Hc Hh Hnext.
  destruct (mesh_find_route_spec dst g)
    as (_ & [[_ Hnone]|(k & -> & _)]); [|apply Hnext].
  specialize (Hnone j Hj Hc). fold ns in Hnone. lia.
Qed.

(** * Further properties *)

(** ** What each call can change *)

Lemma mesh_update_routing_table_frame t b g :
  ∃ rt', state (mesh_update_routing_table t b g) = set_routing_table rt' g.
Proof.
  unfold mesh_update_routing_table. unfold_M. simpl.
  destruct (find_existing _ _ _ _) as [i|]; simpl.
  - destruct (_ =? 1); simpl; destruct (1 <? verbose g); simpl; eauto.
  - destruct (node_count (routing_table g) <? MESH_MAX_NODES); simpl.
    + destruct (_ =? 1); simpl; destruct (1 <? verbose g); simpl; eauto.
    + exists (routing_table g). by rewrite set_routing_table_same.
Qed.

Lemma mesh_send_beacon_enabled t g :
  mesh_enabled g = true →
  result (mesh_send_beacon t g) = true
  ∧ state (mesh_send_beacon t g)
    = set_last_beacon_time (t / 1000)
        (set_mesh_seq_num (u16 (mesh_seq_num g + 1)) g).
Proof.
  intros Hen. unfold mesh_send_beacon. unfold_M. simpl. rewrite Hen. simpl.
  by destruct (1 <? verbose g).
Qed.

Lemma mesh_send_beacon_disabled t g :
  mesh_enabled g = false → mesh_send_beacon t g = (false, g, []).
Proof. intros Hen. unfold mesh_send_beacon. unfold_M. simpl. by rewrite Hen. Qed.

(** The globals after one tick. *)
Lemma mesh_beacon_handler_state t t' g :
  state (mesh_beacon_handler t t' g)
  = if mesh_enabled g then
      let g1 :=
        state (cleanup_stale_routes (t / 1000) 0
                 (Z.to_nat (node_count (routing_table g))) g) in
      if MESH_BEACON_INTERVAL <? u32 (t / 1000 - last_beacon_time g) then
        set_last_beacon_time (t' / 1000)
          (set_mesh_seq_num (u16 (mesh_seq_num g + 1)) g1)
      else g1
    else g.
Proof.
  unfold mesh_beacon_handler. autorewrite with M_simpl.
  destruct (mesh_enabled g) eqn:Hen; simpl; [|done].
  autorewrite with M_simpl.
  destruct (cleanup_stale_routes_state (t / 1000) 0
              (Z.to_nat (node_count (routing_table g))) g)
    as (ns' & Hst & _).
  rewrite Hst. simpl.
  destruct (MESH_BEACON_INTERVAL <? _); [|done].
  autorewrite with M_simpl.
  by destruct (mesh_send_beacon_enabled t'
                 (set_routing_table (set_nodes ns' (routing_table g)) g) Hen)
    as [_ ->].
Qed.

(** The two switches after one call. *)
Lemma step_switches c g :
  let g' := state (step c g) in
  (p2p_enabled g' =
     match c with
     | Call_p2p_enable true _ => true
     | Call_p2p_disable true => false
     | _ => p2p_enabled g
     end)
  ∧ (mesh_enabled g' =
     match c with
     | Call_mesh_enable _ => p2p_enabled g || mesh_enabled g
     | Call_mesh_disable => false
     | _ => mesh_enabled g
     end).
Proof.
  destruct c as [[] ?|[]| | | | | | | |t b| |t t'|]; simpl;
    try (unfold p2p_enable, p2p_disable, p2p_start_listen, p2p_start_search,
           mesh_enable, mesh_disable, mesh_send_beacon, mesh_send_data,
           mesh_route_packet, mesh_data_handler, mesh_find_route,
           p2p_start_listen;
         crush_M; done).
  - unfold mesh_enable, p2p_start_listen. unfold_M. simpl.
    destruct (p2p_enabled g) eqn:Hp; simpl; [|done].
    destruct (negb (verbose g =? 0)); simpl; rewrite Hp; simpl;
      by destruct (negb (verbose g =? 0)).
  - destruct (mesh_update_routing_table_frame t b g) as [rt' ->]. done.
  - rewrite mesh_beacon_handler_state.
    destruct (mesh_enabled g) eqn:Hen; [|by rewrite Hen].
    destruct (cleanup_stale_routes_state (t / 1000) 0
                (Z.to_nat (node_count (routing_table g))) g)
      as (ns' & -> & _).
    simpl. by destruct (MESH_BEACON_INTERVAL <? _).
Qed.

(** ** Looking up what was stored *)

Lemma entry_of_index t id nd :
  well_formed t → entry_of t id = Some nd →
  ∃ i, (i < Z.to_nat (node_count t))%nat
       ∧ nodes t !!! i = nd ∧ node_id nd = id.
Proof.
  intros Hwf H. unfold entry_of in H.
  apply fmap_Some in H as (i & Hi & ->).
  apply find_existing_Some in Hi as (Hi & Hid & _).
  exists i. split; [lia|done].
Qed.

Lemma same_id_same_slot t j k :
  well_formed t → NoDup (entry_ids t) →
  (j < Z.to_nat (node_count t))%nat → (k < Z.to_nat (node_count t))%nat →
  node_id (nodes t !!! j) = node_id (nodes t !!! k) → j = k.
Proof.
  intros Hwf Hnd Hj Hk Hid.
  eapply NoDup_lookup; [exact Hnd| |].
  - unfold entry_ids. rewrite list_lookup_fmap.
    rewrite lookup_total_entries by done. reflexivity.
  - unfold entry_ids. rewrite list_lookup_fmap.
    rewrite lookup_total_entries by done. simpl. by rewrite Hid.
Qed.

(** X1: [mesh_find_route] changes no global and prints nothing.  Its
    answer is -1 when every active entry for [dst] has hop count 255 or
    more (in particular when there is none); otherwise it is the next hop
    of an active entry for [dst] whose hop count is the least among them
    and, among those of least hop count, the first in slot order. *)
Theorem find_route_answer dst g :
  let ns := nodes (routing_table g) in
  let n := Z.to_nat (node_count (routing_table g)) in
  let answer := result (mesh_find_route dst g) in
  mesh_find_route dst g = (answer, g, [])
  ∧ ((answer = -1
      ∧ ∀ j, (j < n)%nat → candidate ns dst j → 255 ≤ hop_count (ns !!! j))
     ∨ (∃ k, answer = next_hop (ns !!! k)
             ∧ (k < n)%nat
             ∧ candidate ns dst k
             ∧ hop_count (ns !!! k) < 255
             ∧ (∀ j, (j < n)%nat → candidate ns dst j →
                     hop_count (ns !!! k) ≤ hop_count (ns !!! j))
             ∧ (∀ j, (j < k)%nat → candidate ns dst j →
                     hop_count (ns !!! k) < hop_count (ns !!! j)))).
Proof. apply mesh_find_route_spec. Qed.

(** X2: a node without an active entry has no route: if every entry for
    [dst] is inactive, or there is none, [mesh_find_route dst] is -1. *)
Theorem no_active_entry_no_route dst g :
  well_formed (routing_table g) →
  (∀ nd, nd ∈ entries (routing_table g) →
         node_id nd = dst → is_active nd = false) →
  result (mesh_find_route dst g) = -1.
Proof.
  intros Hwf Hnone.
  destruct (mesh_find_route_spec dst g)
    as (_ & [[-> _]|(k & _ & Hk & [Hid Hact] & _)]); [done|].
  rewrite Hnone in Hact; [done| |done].
  apply list_elem_of_lookup. exists k. by apply lookup_total_entries.
Qed.

Lemma no_active_entry_no_route_witness :
  result (mesh_find_route 9 one_neighbour) = -1.
Proof.
  apply (no_active_entry_no_route 9 one_neighbour).
  - vm_compute. split; [reflexivity|]. split; discriminate.
  - intros nd Hnd Hid. vm_compute in Hnd.
    apply list_elem_of_singleton in Hnd. subst nd. discriminate Hid.
Defined.

(** X3: in a state reached after [mesh_init], once a beacon of node N with
    header hop count 0 has been ingested (N had an entry, or the table
    had room) the route to N is N itself. *)
Theorem heard_neighbour_is_routable g0 id name cs t b :
  let g := after_init g0 id name cs in
  Hdr.hop_count (Bcn.hdr b) = 0 →
  is_Some (entry_of (routing_table g) (Bcn.node_id b))
  ∨ node_count (routing_table g) < MESH_MAX_NODES →
  result (mesh_find_route (Bcn.node_id b)
            (state (mesh_update_routing_table t b g)))
  = Bcn.node_id b.
Proof.
  intros g Hhop Hroom.
  destruct (after_init_invariant g0 id name cs) as (Hwf & _ & _ & _).
  fold g in Hwf.
  destruct (entry_of_after_update t b g Hwf Hroom) as (nd0 & Hentry & Hid0).
  set (g' := state (mesh_update_routing_table t b g)) in *.
  assert (Hg' : g' = after_init g0 id name
                       (cs ++ [Call_mesh_update_routing_table t b]))
    by (by rewrite after_init_snoc).
  destruct (after_init_invariant g0 id name
              (cs ++ [Call_mesh_update_routing_table t b]))
    as (Hwf' & _ & Hnd' & _).
  rewrite <- Hg' in Hwf', Hnd'.
  destruct (entry_of_index _ _ _ Hwf' Hentry) as (i & Hi & Hnode & Hidr).
  destruct (refreshed_fields (t / 1000) b nd0)
    as (_ & _ & Hh & _ & Ha & Hnext). simpl in Hh, Ha, Hnext.
  rewrite Hhop in Hh. change (u8 (0 + 1)) with 1 in Hh.
  rewrite Hh in Hnext. simpl in Hnext.
  destruct (mesh_find_route_spec (Bcn.node_id b) g')
    as (_ & [[_ Hnone]|(k & -> & Hk & [Hidk Hactk] & _)]).
  - specialize (Hnone i Hi). rewrite Hnode, Hh in Hnone.
    assert (255 ≤ 1); [|lia]. apply Hnone. split; [by rewrite Hnode|].
    by rewrite Hnode.
  - assert (k = i) as ->.
    { apply (same_id_same_slot (routing_table g')); try done.
      by rewrite Hidk, Hnode. }
    by rewrite Hnode.
Qed.

Lemma heard_neighbour_is_routable_witness :
  result (mesh_find_route 6
            (state (mesh_update_routing_table 60000000 (beacon_from 6 0)
                      one_neighbour))) = 6.
Proof.
  apply (heard_neighbour_is_routable (boot 1) 1 [78; 49]
           [Call_p2p_enable true 1; Call_mesh_enable 0;
            Call_mesh_update_routing_table 0 (beacon_from 2 0)]
           60000000 (beacon_from 6 0)).
  - reflexivity.
  - right. by vm_compute.
Defined.

(** X4: [mesh_update_routing_table] writes one slot only: every entry of
    another node is exactly as it was, in the same slot. *)
Theorem update_leaves_other_entries t b g j nd :
  well_formed (routing_table g) →
  entries (routing_table g) !! j = Some nd →
  node_id nd ≠ Bcn.node_id b →
  entries (routing_table (state (mesh_update_routing_table t b g))) !! j
  = Some nd.
Proof.
  intros Hwf Hj Hid.
  pose proof Hj as Hlt%lookup_lt_Some. rewrite length_entries in Hlt by done.
  pose proof Hj as Hj'. rewrite lookup_total_entries in Hj' by done.
  injection Hj' as Hj'.
  rewrite mesh_update_routing_table_state by done.
  destruct (find_existing _ _ _ _) as [i|] eqn:Hfind.
  - apply find_existing_Some in Hfind as (_ & Hi & _).
    unfold entries in *. simpl.
    rewrite lookup_take_lt by done. rewrite lookup_take_lt in Hj by done.
    rewrite list_lookup_alter_ne; [done|]. intros ->. congruence.
  - destruct (node_count (routing_table g) <? MESH_MAX_NODES) eqn:Hfull;
      [|done].
    apply Z.ltb_lt in Hfull. destruct Hwf as [Hlen Hcnt].
    unfold entries in *.
    cbn [nodes node_count routing_table set_routing_table].
    rewrite lookup_take_lt by lia. rewrite lookup_take_lt in Hj by done.
    rewrite list_lookup_alter_ne; [done|lia].
Qed.

Lemma update_leaves_other_entries_witness :
  entries (routing_table
             (state (mesh_update_routing_table 60000000 (beacon_from 6 0)
                       one_neighbour))) !! 0%nat
  = Some {| node_id := 2; mac_addr := [0; 0; 0; 0; 0; 0]; hop_count := 1;
            next_hop := 2; last_update := 0; is_active := true |}.
Proof.
  apply (update_leaves_other_entries 60000000 (beacon_from 6 0)
           one_neighbour).
  - vm_compute. split; [reflexivity|]. split; discriminate.
  - by vm_compute.
  - by vm_compute.
Defined.

(** ** Routes across a tick *)

Lemma mesh_find_route_result dst g :
  result (mesh_find_route dst g)
  = match find_route_loop (nodes (routing_table g)) dst 0
            (Z.to_nat (node_count (routing_table g))) None 255 with
    | Some i => next_hop (nodes (routing_table g) !!! i)
    | None => -1
    end.
Proof. unfold mesh_find_route. unfold_M. simpl. by destruct find_route_loop. Qed.

Lemma find_route_loop_agree ns1 ns2 dst i n best min_hops :
  (∀ j, (i ≤ j < i + n)%nat →
        node_id (ns1 !!! j) = node_id (ns2 !!! j)
        ∧ hop_count (ns1 !!! j) = hop_count (ns2 !!! j)
        ∧ (node_id (ns1 !!! j) = dst →
           is_active (ns1 !!! j) = is_active (ns2 !!! j))) →
  find_route_loop ns1 dst i n best min_hops
  = find_route_loop ns2 dst i n best min_hops.
Proof.
  revert i best min_hops. induction n as [|n IH]; intros i best min_hops H;
    simpl; [done|].
  destruct (H i) as (Hid & Hhop & Hact); [lia|].
  rewrite <- Hid, <- Hhop.
  assert ((node_id (ns1 !!! i) =? dst) && is_active (ns2 !!! i)
          = (node_id (ns1 !!! i) =? dst) && is_active (ns1 !!! i)) as ->.
  { destruct (node_id (ns1 !!! i) =? dst) eqn:E; [|done].
    apply Z.eqb_eq in E. by rewrite Hact. }
  rewrite !IH; [done|..]; intros j Hj; apply H; lia.
Qed.

Lemma entry_of_slot t j :
  well_formed t → NoDup (entry_ids t) →
  (j < Z.to_nat (node_count t))%nat →
  entry_of t (node_id (nodes t !!! j)) = Some (nodes t !!! j).
Proof.
  intros Hwf Hnd Hj.
  destruct (entry_of t (node_id (nodes t !!! j))) as [nd|] eqn:E.
  - destruct (entry_of_index _ _ _ Hwf E) as (i & Hi & <- & Hid).
    f_equal. f_equal. by apply (same_id_same_slot t).
  - apply entry_of_None in E; [|done]. destruct E.
    unfold entry_ids. apply list_elem_of_fmap. eexists. split; [done|].
    apply list_elem_of_lookup. exists j. by apply lookup_total_entries.
Qed.

(** The table after a tick, slot by slot, for a well-formed table. *)
Lemma tick_table t t' g :
  well_formed (routing_table g) →
  let rt := routing_table g in
  let rt' := routing_table (state (mesh_beacon_handler t t' g)) in
  node_count rt' = node_count rt
  ∧ local_node_id rt' = local_node_id rt
  ∧ length (nodes rt') = length (nodes rt)
  ∧ ∀ j, (j < Z.to_nat (node_count rt))%nat →
         nodes rt' !!! j
         = if mesh_enabled g then expired (t / 1000) (nodes rt !!! j)
           else nodes rt !!! j.
Proof.
  intros [Hlen Hcnt] rt rt'. subst rt'. rewrite mesh_beacon_handler_table.
  destruct (mesh_enabled g); [|done].
  destruct (cleanup_stale_routes_table (t / 1000) g)
    as (Hc & Hl & Hlen' & Hlook). fold rt in Hc, Hl, Hlen', Hlook.
  split; [done|]. split; [done|]. split; [done|].
  intros j Hj. apply list_lookup_total_correct. rewrite Hlook.
  rewrite bool_decide_eq_true_2 by done.
  rewrite (list_lookup_lookup_total_lt (nodes rt)); [done|].
  subst rt. unfold MESH_MAX_NODES in *. lia.
Qed.

(** X5: in a state reached after [mesh_init] with the mesh enabled, a node
    whose entry is stale at the time of the tick has no route after it. *)
Theorem stale_neighbour_loses_route g0 id name cs t t' dst nd :
  let g := after_init g0 id name cs in
  mesh_enabled g = true →
  entry_of (routing_table g) dst = Some nd →
  stale (t / 1000) nd = true →
  result (mesh_find_route dst (state (mesh_beacon_handler t t' g))) = -1.
Proof.
  intros g Hen Hentry Hstale.
  destruct (after_init_invariant g0 id name cs) as (Hwf & _ & Hnd & _).
  fold g in Hwf, Hnd.
  destruct (tick_table t t' g Hwf) as (Hc & _ & Hlen & Hlook).
  rewrite Hen in Hlook.
  set (g' := state (mesh_beacon_handler t t' g)) in *.
  destruct (entry_of_index _ _ _ Hwf Hentry) as (i & Hi & Hnode & Hid).
  destruct (mesh_find_route_spec dst g')
    as (_ & [[-> _]|(k & _ & Hk & [Hidk Hactk] & _)]); [done|].
  rewrite Hc in Hk. rewrite Hlook in Hidk, Hactk by done.
  rewrite node_id_expired in Hidk.
  assert (k = i) as ->.
  { apply (same_id_same_slot (routing_table g)); try done. congruence. }
  rewrite Hnode in Hactk. unfold expired in Hactk. rewrite Hstale in Hactk.
  destruct (is_active nd) eqn:E; simpl in Hactk; congruence.
Qed.

Lemma stale_neighbour_loses_route_witness :
  result (mesh_find_route 3
            (state (mesh_beacon_handler 60000000 60000001 three_neighbours)))
  = -1.
Proof.
  eapply (stale_neighbour_loses_route (boot 2) 1 [78; 49] _ 60000000
            60000001 3).
  - by vm_compute.
  - vm_compute. reflexivity.
  - by vm_compute.
Defined.

(** X6: in a state reached after [mesh_init], a tick does not change the
    route to a node whose entry is not both active and stale at that
    time (nor to a node without an entry). *)
Theorem tick_keeps_fresh_routes g0 id name cs t t' dst :
  let g := after_init g0 id name cs in
  (∀ nd, entry_of (routing_table g) dst = Some nd →
         is_active nd = true → stale (t / 1000) nd = false) →
  result (mesh_find_route dst (state (mesh_beacon_handler t t' g)))
  = result (mesh_find_route dst g).
Proof.
  intros g Hfresh.
  destruct (after_init_invariant g0 id name cs) as (Hwf & _ & Hnd & _).
  fold g in Hwf, Hnd.
  destruct (tick_table t t' g Hwf) as (Hc & _ & Hlen & Hlook).
  set (g' := state (mesh_beacon_handler t t' g)) in *.
  assert (Hslot : ∀ j, (j < Z.to_nat (node_count (routing_table g)))%nat →
            node_id (nodes (routing_table g') !!! j)
            = node_id (nodes (routing_table g) !!! j)
            ∧ hop_count (nodes (routing_table g') !!! j)
              = hop_count (nodes (routing_table g) !!! j)
            ∧ next_hop (nodes (routing_table g') !!! j)
              = next_hop (nodes (routing_table g) !!! j)
            ∧ (node_id (nodes (routing_table g') !!! j) = dst →
               is_active (nodes (routing_table g') !!! j)
               = is_active (nodes (routing_table g) !!! j))).
  { intros j Hj. rewrite Hlook by done.
    destruct (mesh_enabled g); [|done].
    set (nd := nodes (routing_table g) !!! j).
    assert (Hnd' : entry_of (routing_table g) (node_id nd) = Some nd)
      by (by apply entry_of_slot).
    unfold expired.
    destruct (is_active nd && stale (t / 1000) nd) eqn:E; [|done].
    simpl. split; [done|]. split; [done|]. split; [done|].
    intros Hid. apply andb_true_iff in E as [Ha Hs].
    rewrite Hid in Hnd'. by rewrite (Hfresh nd Hnd' Ha) in Hs. }
  rewrite !mesh_find_route_result. rewrite Hc.
  rewrite (find_route_loop_agree (nodes (routing_table g'))
             (nodes (routing_table g))).
  2:{ intros j Hj. destruct (Hslot j) as (? & ? & ? & ?); [lia|done]. }
  destruct (find_route_loop _ _ _ _ _ _) as [k|] eqn:Hk; [|done].
  destruct (find_route_loop_spec (nodes (routing_table g)) dst 0
              (Z.to_nat (node_count (routing_table g))) None 255)
    as [[Hb _]|(k' & Hb & Hlt & _)]; rewrite Hk in Hb; [done|].
  injection Hb as <-. by destruct (Hslot k) as (_ & _ & -> & _); [lia|].
Qed.

Lemma tick_keeps_fresh_routes_witness :
  result (mesh_find_route 2
            (state (mesh_beacon_handler 60000000 60000001 three_neighbours)))
  = 2.
Proof.
  unfold three_neighbours.
  rewrite (tick_keeps_fresh_routes (boot 2) 1 [78; 49]
             [Call_p2p_enable true 1; Call_mesh_enable 0;
              Call_mesh_update_routing_table 1000000 (beacon_from 3 0);
              Call_mesh_update_routing_table 2000000 (beacon_from 4 1);
              Call_mesh_update_routing_table 50000000 (beacon_from 2 0)]
             60000000 60000001 2).
  - by vm_compute.
  - intros nd Hnd _. vm_compute in Hnd. injection Hnd as <-. by vm_compute.
Defined.

(** X7: the tick reads the clock as [time_us_32() / 1000], which falls
    back to 0 every 2^32 microseconds.  With the mesh enabled, an entry
    whose [last_update] lies ahead of the clock (the clock has wrapped
    since) is stale at once: the tick leaves it inactive. *)
Theorem clock_wrap_expires_entry t t' g j nd :
  mesh_enabled g = true →
  entries (routing_table g) !! j = Some nd →
  0 ≤ t / 1000 < last_update nd →
  last_update nd ≤ (2 ^ 32 - 1) / 1000 →
  entries (routing_table (state (mesh_beacon_handler t t' g))) !! j
  = Some (set_is_active false nd).
Proof.
  intros Hen Hj Hnow Hlast.
  rewrite mesh_beacon_handler_table, Hen.
  destruct (cleanup_stale_routes_table (t / 1000) g)
    as (Hc & _ & _ & Hlook).
  unfold entries in *. rewrite Hc.
  apply lookup_take_Some in Hj as [Hj Hlt]. apply lookup_take_Some.
  split; [|done]. rewrite Hlook, Hj. rewrite bool_decide_eq_true_2 by done.
  simpl. f_equal. rewrite expired_set_is_active. f_equal.
  assert (stale (t / 1000) nd = true) as ->; [|by destruct (is_active nd)].
  unfold stale, u32, MESH_ROUTE_TIMEOUT. apply Z.ltb_lt.
  change ((2 ^ 32 - 1) / 1000) with 4294967 in Hlast.
  rewrite <- (Z.mod_add _ 1) by done. rewrite Z.mod_small; lia.
Qed.

Lemma clock_wrap_expires_entry_witness :
  entries (routing_table
             (state (mesh_beacon_handler 5000 5001 three_neighbours)))
    !! 2%nat
  = Some (set_is_active false
            {| node_id := 2; mac_addr := [0; 0; 0; 0; 0; 0]; hop_count := 1;
               next_hop := 2; last_update := 50000; is_active := true |}).
Proof.
  apply (clock_wrap_expires_entry 5000 5001 three_neighbours).
  - by vm_compute.
  - by vm_compute.
  - by vm_compute.
  - by vm_compute.
Defined.

(** ** The shape of stored entries *)

Lemma entry_ok_refreshed ct b nd :
  node_id nd = Bcn.node_id b →
  next_hop nd = node_id nd ∨ next_hop nd = 0 →
  entry_ok (refreshed ct b nd).
Proof.
  intros Hid Hnext.
  destruct (refreshed_fields ct b nd) as (Hn & _ & Hh & _ & _ & Hx).
  cbv zeta in Hn, Hh, Hx. unfold entry_ok. rewrite Hx, Hn, Hh.
  pose proof (Z.mod_pos_bound (Hdr.hop_count (Bcn.hdr b) + 1) (2 ^ 8)
                eq_refl) as Hb.
  unfold u8. change (2 ^ 8) with 256 in *.
  split; [lia|].
  destruct ((Hdr.hop_count (Bcn.hdr b) + 1) `mod` 256 =? 1) eqn:E.
  - split; [done|]. by left.
  - apply Z.eqb_neq in E. split; [done|]. done.
Qed.

Lemma entry_ok_expired ct nd : entry_ok nd → entry_ok (expired ct nd).
Proof. unfold expired. by destruct (_ && _). Qed.

(** In every state reached after [mesh_init] the entries have the shape
    [entry_ok] and the slots past [node_count] are still zeroed. *)
Lemma after_init_shape g0 id name cs :
  let rt := routing_table (after_init g0 id name cs) in
  (∀ j, (j < Z.to_nat (node_count rt))%nat → entry_ok (nodes rt !!! j))
  ∧ (∀ j, (Z.to_nat (node_count rt) ≤ j < Z.to_nat MESH_MAX_NODES)%nat →
          nodes rt !!! j = zero_node).
Proof.
  induction cs as [|c cs IH] using rev_ind; intros rt; subst rt.
  - rewrite after_init_nil, mesh_init_table. cbn [nodes node_count].
    split; [intros j; lia|].
    intros j Hj. apply list_lookup_total_correct.
    apply lookup_replicate_2. unfold MESH_MAX_NODES in *. lia.
  - rewrite after_init_snoc.
    destruct (after_init_invariant g0 id name cs) as (Hwf & _ & _ & _).
    set (g := after_init g0 id name cs) in *.
    destruct IH as [Hok Hzero]. pose proof Hwf as [Hlen Hcnt].
    unfold MESH_MAX_NODES in *.
    destruct c as [| | | | | | | | |t b| |t t'|];
      try (rewrite step_other_table by done; by split).
    + (* mesh_update_routing_table *)
      simpl. rewrite mesh_update_routing_table_state by done.
      destruct (find_existing _ _ _ _) as [i|] eqn:Hfind.
      * apply find_existing_Some in Hfind as (Hi & Hid & _). simpl. split.
        -- intros j Hj. destruct (decide (j = i)) as [->|].
           ++ rewrite list_lookup_total_alter_eq by lia.
              apply entry_ok_refreshed; [done|]. apply Hok. lia.
           ++ rewrite list_lookup_total_alter_ne by done. by apply Hok.
        -- intros j Hj. rewrite list_lookup_total_alter_ne by lia.
           apply Hzero. lia.
      * destruct (node_count (routing_table g) <? MESH_MAX_NODES) eqn:Hfull;
          [|by split].
        apply Z.ltb_lt in Hfull. unfold MESH_MAX_NODES in Hfull.
        cbn [nodes node_count routing_table set_routing_table]. split.
        -- intros j Hj.
           destruct (decide (j = Z.to_nat (node_count (routing_table g))))
             as [->|].
           ++ rewrite list_lookup_total_alter_eq by lia.
              rewrite Hzero by lia. by apply entry_ok_refreshed; [|right].
           ++ rewrite list_lookup_total_alter_ne by done. apply Hok. lia.
        -- intros j Hj. rewrite list_lookup_total_alter_ne by lia.
           apply Hzero. lia.
    + (* mesh_beacon_handler *)
      simpl. destruct (tick_table t t' g Hwf) as (Hc & _ & Hlen' & Hlook).
      rewrite Hc. split.
      * intros j Hj. rewrite Hlook by done.
        destruct (mesh_enabled g); [apply entry_ok_expired|]; by apply Hok.
      * intros j Hj. rewrite <- (Hzero j Hj).
        rewrite mesh_beacon_handler_table.
        destruct (mesh_enabled g); [|done].
        destruct (cleanup_stale_routes_table (t / 1000) g)
          as (_ & _ & _ & Hl).
        rewrite !list_lookup_total_alt, Hl.
        rewrite bool_decide_eq_false_2 by lia. by rewrite option_fmap_id.
Qed.

(** X8: in every state reached after [mesh_init], whatever the beacons
    carried, each stored entry has a hop count between 0 and 255, is its own
    next hop when its hop count is 1, and never has a next hop other than
    its own node id or the initial 0; the slots past [node_count] are still
    all zero. *)
Theorem stored_entries_shape g0 id name cs :
  let rt := routing_table (after_init g0 id name cs) in
  (∀ nd, nd ∈ entries rt →
         0 ≤ hop_count nd ≤ 255
         ∧ (hop_count nd = 1 → next_hop nd = node_id nd)
         ∧ (next_hop nd = node_id nd ∨ next_hop nd = 0))
  ∧ drop (Z.to_nat (node_count rt)) (nodes rt)
    = replicate (Z.to_nat MESH_MAX_NODES - Z.to_nat (node_count rt))
        zero_node.
Proof.
  intros rt.
  destruct (after_init_invariant g0 id name cs) as (Hwf & _ & _ & _).
  destruct (after_init_shape g0 id name cs) as [Hok Hzero].
  fold rt in Hwf, Hok, Hzero. split.
  - intros nd Hnd. apply list_elem_of_lookup in Hnd as [j Hj].
    pose proof Hj as Hlt%lookup_lt_Some. rewrite length_entries in Hlt by done.
    rewrite lookup_total_entries in Hj by done. injection Hj as <-.
    by apply Hok.
  - destruct Hwf as [Hlen Hcnt]. apply list_eq. intros j.
    rewrite lookup_drop.
    destruct (decide (j < Z.to_nat MESH_MAX_NODES
                          - Z.to_nat (node_count rt))%nat) as [Hj|Hj].
    + rewrite lookup_replicate_2 by done.
      rewrite list_lookup_lookup_total_lt by lia. f_equal. apply Hzero. lia.
    + rewrite lookup_ge_None_2 by lia.
      symmetry. apply lookup_ge_None_2. rewrite length_replicate. lia.
Qed.

(** X9: in every state reached after [mesh_init], [mesh_find_route dst]
    answers -1, [dst] itself or 0, and nothing else: the table never
    names a relay. *)
Theorem route_is_destination_or_unset g0 id name cs dst :
  let answer := result (mesh_find_route dst (after_init g0 id name cs)) in
  answer = -1 ∨ answer = dst ∨ answer = 0.
Proof.
  intros answer. subst answer.
  destruct (after_init_shape g0 id name cs) as [Hok _].
  destruct (mesh_find_route_spec dst (after_init g0 id name cs))
    as (_ & [[-> _]|(k & -> & Hk & [Hid _] & _)]); [by left|].
  right. destruct (Hok k Hk) as (_ & _ & [->| ->]); [left|right]; done.
Qed.

(** ** The switches and the counters *)

(** [p2p_mode] and [mesh_seq_num] after one call. *)
Lemma step_mode_and_seq c g :
  let g' := state (step c g) in
  (p2p_mode g' = p2p_mode g ∨ p2p_mode g' = P2P_MODE_IDLE
   ∨ p2p_mode g' = P2P_MODE_LISTEN ∨ p2p_mode g' = P2P_MODE_SEARCH)
  ∧ ((p2p_enabled g = false → p2p_mode g = P2P_MODE_IDLE) →
     p2p_enabled g' = false → p2p_mode g' = P2P_MODE_IDLE)
  ∧ (mesh_seq_num g' = mesh_seq_num g
     ∨ mesh_seq_num g' = u16 (mesh_seq_num g + 1)).
Proof.
  destruct c as [[] ?|[]| | | | | | | |t b| |t t'|]; simpl;
    try (destruct (p2p_enabled g) eqn:Hp;
         unfold p2p_enable, p2p_disable, p2p_start_listen, p2p_start_search,
           mesh_enable, mesh_disable, mesh_send_beacon, mesh_send_data,
           mesh_route_packet, mesh_data_handler, mesh_find_route,
           p2p_start_listen;
         unfold_M; simpl; rewrite ?Hp; simpl;
         repeat match goal with
                | |- context [if ?b then _ else _] => destruct b; simpl
                | |- context [match ?o with Some _ => _ | None => _ end] =>
                    destruct o; simpl
                end;
         rewrite ?Hp; simpl; rewrite ?Hp;
         split_and!; try (intros; congruence); by auto 6).
  - destruct (mesh_update_routing_table_frame t b g) as [rt' ->]. simpl.
    by auto.
  - rewrite mesh_beacon_handler_state.
    destruct (mesh_enabled g) eqn:Hen; [|by auto].
    destruct (cleanup_stale_routes_state (t / 1000) 0
                (Z.to_nat (node_count (routing_table g))) g)
      as (ns' & -> & _).
    simpl. destruct (MESH_BEACON_INTERVAL <? _); simpl; by auto.
Qed.

(** X10: P2P comes first.  Starting with P2P and the mesh both disabled,
    the mesh can only be found enabled after a sequence of calls that
    holds a [p2p_enable] accepted by the radio and a [mesh_enable]. *)
Theorem mesh_enabled_needs_p2p g cs :
  p2p_enabled g = false →
  mesh_enabled g = false →
  mesh_enabled (state (run cs g)) = true →
  (∃ channel, Call_p2p_enable true channel ∈ cs)
  ∧ (∃ t, Call_mesh_enable t ∈ cs).
Proof.
  intros Hp Hm.
  assert (Hinv :
    (p2p_enabled (state (run cs g)) = true →
     ∃ channel, Call_p2p_enable true channel ∈ cs)
    ∧ (mesh_enabled (state (run cs g)) = true →
       (∃ channel, Call_p2p_enable true channel ∈ cs)
       ∧ (∃ t, Call_mesh_enable t ∈ cs))); [|apply Hinv].
  induction cs as [|c cs IH] using rev_ind.
  - unfold run, state. simpl. rewrite Hp, Hm. by split.
  - rewrite state_run_app, state_run_cons.
    set (g1 := state (run cs g)) in *.
    destruct (step_switches c g1) as [Hp' Hm']. fold g1 in Hp', Hm'.
    change (state (run [] (state (step c g1)))) with (state (step c g1)).
    destruct IH as [IHp IHm].
    assert (Hmono : ∀ P : call → Prop,
               (∃ x, P x ∧ x ∈ cs) → ∃ x, P x ∧ x ∈ cs ++ [c]).
    { intros P (x & ? & ?). exists x. split; [done|].
      apply elem_of_app. by left. }
    assert (Hlast : c ∈ cs ++ [c]).
    { apply elem_of_app. right. by apply list_elem_of_singleton. }
    split.
    + rewrite Hp'. intros H.
      destruct c as [[] ch|[]| | | | | | | | | | |];
        try (destruct (IHp H) as [ch' Hin]; exists ch';
             apply elem_of_app; by left);
        try discriminate H.
      by exists ch.
    + rewrite Hm'. intros H.
      assert (Hold : mesh_enabled g1 = true →
                (∃ channel, Call_p2p_enable true channel ∈ cs ++ [c])
                ∧ (∃ t, Call_mesh_enable t ∈ cs ++ [c])).
      { intros Hg1. destruct (IHm Hg1) as [[ch ?] [t ?]].
        split; [exists ch|exists t]; apply elem_of_app; by left. }
      destruct c as [| | | |t| | | | | | | |]; try (by apply Hold);
        try discriminate H.
      apply orb_true_iff in H as [H|H]; [|by apply Hold].
      destruct (IHp H) as [ch ?]. split.
      * exists ch. apply elem_of_app. by left.
      * by exists t.
Qed.

Lemma mesh_enabled_needs_p2p_witness :
  (∃ channel,
     Call_p2p_enable true channel
     ∈ [Call_mesh_enable 5; Call_p2p_enable true 1; Call_mesh_enable 7])
  ∧ (∃ t, Call_mesh_enable t
          ∈ [Call_mesh_enable 5; Call_p2p_enable true 1; Call_mesh_enable 7]).
Proof.
  apply (mesh_enabled_needs_p2p (boot 0)).
  - reflexivity.
  - reflexivity.
  - by vm_compute.
Defined.

(** X11: from the boot image, whatever is called, [p2p_mode] is one of
    idle, listen and search, and it is idle whenever P2P is disabled. *)
Theorem p2p_mode_follows_switch v id name cs :
  let g := after_init (boot v) id name cs in
  (p2p_mode g = P2P_MODE_IDLE ∨ p2p_mode g = P2P_MODE_LISTEN
   ∨ p2p_mode g = P2P_MODE_SEARCH)
  ∧ (p2p_enabled g = false → p2p_mode g = P2P_MODE_IDLE).
Proof.
  induction cs as [|c cs IH] using rev_ind; intros g; subst g.
  - rewrite after_init_nil. unfold mesh_init. unfold_M. simpl.
    destruct (negb _); simpl; by auto.
  - rewrite after_init_snoc. set (g := after_init (boot v) id name cs) in *.
    destruct IH as [IHm IHp].
    destruct (step_mode_and_seq c g) as (Hm & Hp & _).
    split; [|by apply Hp].
    destruct Hm as [->|Hm]; [done|]. tauto.
Qed.

(** X12: beacons and data share one sequence counter.  In every state
    reached after [mesh_init] it lies between 0 and 65535, and one more
    call leaves it as it is or advances it by one, wrapping to 0 after
    65535. *)
Theorem sequence_counter_steps g0 id name cs c :
  let g := after_init g0 id name cs in
  let g' := after_init g0 id name (cs ++ [c]) in
  0 ≤ mesh_seq_num g < 2 ^ 16
  ∧ (mesh_seq_num g' = mesh_seq_num g
     ∨ mesh_seq_num g' = (mesh_seq_num g + 1) mod 2 ^ 16).
Proof.
  intros g g'. subst g'. rewrite after_init_snoc. fold g. split.
  - subst g. clear c. induction cs as [|c cs IH] using rev_ind.
    + rewrite after_init_nil. unfold mesh_init. unfold_M. simpl.
      destruct (negb _); simpl; lia.
    + rewrite after_init_snoc.
      destruct (step_mode_and_seq c (after_init g0 id name cs))
        as (_ & _ & [->| ->]); [done|].
      unfold u16. apply Z.mod_pos_bound. lia.
  - by destruct (step_mode_and_seq c g) as (_ & _ & ?).
Qed.

(** ** Sending *)

(** X13: [mesh_send_data] succeeds exactly when the mesh is enabled and
    [mesh_find_route] finds a next hop.  A refused send changes no global,
    so it uses up no sequence number, and prints the reason; an accepted
    one only advances [mesh_seq_num], by one modulo 65536, and prints the
    next hop when [verbose] is set. *)
Theorem send_data_outcome dst data len g :
  let route := result (mesh_find_route dst g) in
  mesh_send_data dst data len g
  = if negb (mesh_enabled g) then
      (false, g, [Printf "Mesh networking not enabled" []])
    else if route <? 0 then
      (false, g, [Printf "No route to destination node %u" [Num dst]])
    else
      (true, set_mesh_seq_num (u16 (mesh_seq_num g + 1)) g,
       if verbose g =? 0 then []
       else [Printf "Sending mesh data to node %u via next hop %d"
               [Num dst; Num route]]).
Proof.
  intros route.
  destruct (mesh_find_route_spec dst g) as [Hpure _].
  fold route in Hpure.
  unfold mesh_send_data. unfold_M. simpl.
  destruct (mesh_enabled g) eqn:Hen; simpl; [|done].
  unfold_M. rewrite Hpure.
  destruct (route <? 0); simpl; [done|].
  by destruct (verbose g =? 0).
Qed.

(** The neighbour loop of [mesh_send_beacon], while the array has room. *)
Lemma add_neighbors_spec ns i n nbrs idx :
  (i + n ≤ length ns)%nat →
  0 ≤ idx → idx + Z.of_nat n ≤ MESH_MAX_NODES →
  (Z.to_nat MESH_MAX_NODES ≤ length nbrs)%nat →
  let found :=
    node_id <$> filter (λ nd, is_active nd && (hop_count nd =? 1) = true)
                  (take n (drop i ns)) in
  add_neighbors ns i n nbrs idx
  = (take (Z.to_nat idx) nbrs ++ found
       ++ drop (Z.to_nat idx + length found) nbrs,
     idx + Z.of_nat (length found)).
Proof.
  unfold MESH_MAX_NODES. revert i nbrs idx.
  induction n as [|n IH]; intros i nbrs idx Hi Hidx Hroom Hlen.
  - simpl. rewrite Nat.add_0_r, take_drop. f_equal. lia.
  - simpl.
    assert ((idx <? MESH_MAX_NODES) = true) as ->
      by (unfold MESH_MAX_NODES; lia).
    destruct (lookup_lt_is_Some_2 ns i) as [x Hx]; [lia|].
    pose proof (list_lookup_total_correct _ _ _ Hx) as Hx'.
    assert (Hslice : take (S n) (drop i ns) = x :: take n (drop (S i) ns)).
    { by rewrite (drop_S _ _ _ Hx). }
    rewrite Hslice, filter_cons. rewrite Hx'.
    destruct (is_active x && (hop_count x =? 1)) eqn:E.
    + rewrite decide_True by done.
      assert (u8 (idx + 1) = idx + 1) as ->
        by (unfold u8; apply Z.mod_small; lia).
      rewrite IH; [|lia|lia|lia|by rewrite length_insert].
      rewrite fmap_cons. cbn [length].
      replace (Z.to_nat (idx + 1)) with (S (Z.to_nat idx)) by lia.
      rewrite (take_S_r _ _ (node_id x))
        by (apply list_lookup_insert_eq; lia).
      rewrite take_insert_ge by lia.
      rewrite drop_insert_lt by lia.
      rewrite <- app_assoc. simpl. rewrite Nat.add_succ_r. f_equal. lia.
    + rewrite decide_False by done.
      rewrite IH; [done|lia..|done].
Qed.

Lemma add_neighbors_table t :
  well_formed t →
  add_neighbors (nodes t) 0 (Z.to_nat (node_count t))
    (replicate (Z.to_nat MESH_MAX_NODES) 0) 0
  = (direct_neighbours t
       ++ replicate (Z.to_nat MESH_MAX_NODES - length (direct_neighbours t))
            0,
     Z.of_nat (length (direct_neighbours t))).
Proof.
  intros [Hlen Hcnt].
  rewrite add_neighbors_spec;
    [|lia|lia|lia|by rewrite length_replicate].
  cbv zeta. rewrite drop_0. fold (entries t). fold (direct_neighbours t).
  simpl take. simpl Z.to_nat at 1. rewrite drop_replicate. done.
Qed.

(** X14: the neighbour list that [mesh_send_beacon] builds holds the node
    ids of the entries that are active and one hop away, in slot order,
    followed by zeros, and the neighbour count is their number. *)
Theorem beacon_lists_direct_neighbours t :
  well_formed t →
  add_neighbors (nodes t) 0 (Z.to_nat (node_count t))
    (replicate (Z.to_nat MESH_MAX_NODES) 0) 0
  = (direct_neighbours t
       ++ replicate (Z.to_nat MESH_MAX_NODES - length (direct_neighbours t))
            0,
     Z.of_nat (length (direct_neighbours t))).
Proof. apply add_neighbors_table. Qed.

Lemma beacon_lists_direct_neighbours_witness :
  add_neighbors (nodes (routing_table three_neighbours)) 0
    (Z.to_nat (node_count (routing_table three_neighbours)))
    (replicate (Z.to_nat MESH_MAX_NODES) 0) 0
  = ([3; 2; 0; 0; 0; 0; 0; 0], 2).
Proof.
  rewrite (beacon_lists_direct_neighbours (routing_table three_neighbours)).
  - by vm_compute.
  - vm_compute. split; [reflexivity|]. split; discriminate.
Defined.

(** X15: [mesh_send_beacon] does nothing and returns false while the mesh
    is disabled.  While it is enabled it returns true, advances
    [mesh_seq_num] by one modulo 65536, records the time in
    [last_beacon_time], leaves the routing table and every other global as
    they were, and, when [verbose] is above 1, prints the number of active
    direct neighbours. *)
Theorem send_beacon_outcome t g :
  well_formed (routing_table g) →
  mesh_send_beacon t g
  = if mesh_enabled g then
      (true,
       set_last_beacon_time (t / 1000)
         (set_mesh_seq_num (u16 (mesh_seq_num g + 1)) g),
       if 1 <? verbose g then
         [Printf "Sending mesh beacon, neighbors: %u"
            [Num (Z.of_nat (length (direct_neighbours (routing_table g))))]]
       else [])
    else (false, g, []).
Proof.
  intros Hwf. unfold mesh_send_beacon. unfold_M. simpl.
  destruct (mesh_enabled g); simpl; [|done].
  rewrite add_neighbors_table by done.
  by destruct (1 <? verbose g).
Qed.

Lemma send_beacon_outcome_witness :
  output (mesh_send_beacon 70000000 three_neighbours)
  = [Printf "Sending mesh beacon, neighbors: %u" [Num 2]].
Proof.
  rewrite (send_beacon_outcome 70000000 three_neighbours).
  - by vm_compute.
  - vm_compute. split; [reflexivity|]. split; discriminate.
Defined.

(** X16: one tick emits at most one beacon, and does so exactly when the
    mesh is enabled and more than [MESH_BEACON_INTERVAL] ms (in 32-bit
    arithmetic) have passed since [last_beacon_time]: then [mesh_seq_num]
    advances by one and [last_beacon_time] becomes the time read by
    [mesh_send_beacon]; otherwise both stay as they are. *)
Theorem tick_emits_when_due t t' g :
  let due :=
    mesh_enabled g
    && (MESH_BEACON_INTERVAL <? u32 (t / 1000 - last_beacon_time g)) in
  let g' := state (mesh_beacon_handler t t' g) in
  mesh_seq_num g' = (if due then u16 (mesh_seq_num g + 1) else mesh_seq_num g)
  ∧ last_beacon_time g' = (if due then t' / 1000 else last_beacon_time g).
Proof.
  intros due g'. subst due g'. rewrite mesh_beacon_handler_state.
  destruct (mesh_enabled g); [|done].
  destruct (cleanup_stale_routes_state (t / 1000) 0
              (Z.to_nat (node_count (routing_table g))) g)
    as (ns' & -> & _).
  simpl. by destruct (MESH_BEACON_INTERVAL <? _).
Qed.

(** ** Forwarding *)

(** X17: a packet for another node, below the hop ceiling, for which
    [mesh_find_route] finds nothing is dropped: [mesh_route_packet]
    returns false, prints the no-route message when [verbose] is set, and
    leaves the header and every global as they were. *)
Theorem no_route_drops pkt data g :
  Hdr.dst_node pkt ≠ local_node_id (routing_table g) →
  Hdr.hop_count pkt < MESH_MAX_HOPS →
  result (mesh_find_route (Hdr.dst_node pkt) g) < 0 →
  mesh_route_packet pkt data g
  = (false, pkt, g,
     if verbose g =? 0 then []
     else [Printf "No route to node %u, dropping packet"
             [Num (Hdr.dst_node pkt)]]).
Proof.
  intros Hdst Hhop Hroute.
  destruct (mesh_find_route_spec (Hdr.dst_node pkt) g) as [Hpure _].
  set (route := result (mesh_find_route (Hdr.dst_node pkt) g)) in *.
  unfold mesh_route_packet. unfold_M. simpl.
  apply Z.eqb_neq in Hdst. rewrite Hdst.
  assert ((MESH_MAX_HOPS <=? Hdr.hop_count pkt) = false) as -> by lia.
  unfold_M. rewrite Hpure.
  assert ((route <? 0) = true) as -> by lia.
  simpl. by destruct (verbose g =? 0).
Qed.

Lemma no_route_drops_witness :
  mesh_route_packet (data_packet 9 2) [104; 105; 33] one_neighbour
  = (false, data_packet 9 2, one_neighbour,
     [Printf "No route to node %u, dropping packet" [Num 9]]).
Proof.
  apply (no_route_drops (data_packet 9 2) [104; 105; 33] one_neighbour).
  - by vm_compute.
  - by vm_compute.
  - by vm_compute.
Defined.

(** X18: whatever the packet, [mesh_route_packet] changes no global and
    no header field but the hop count; the hop count never goes down,
    goes up by at most one, and a header it changed was forwarded (the
    function returned true) and leaves with a hop count of at most
    [MESH_MAX_HOPS]. *)
Theorem route_packet_header_bounds pkt data g :
  0 ≤ Hdr.hop_count pkt →
  let r := mesh_route_packet pkt data g in
  let pkt' := (result r).2 in
  state r = g
  ∧ Hdr.msg_type pkt' = Hdr.msg_type pkt
  ∧ Hdr.src_node pkt' = Hdr.src_node pkt
  ∧ Hdr.dst_node pkt' = Hdr.dst_node pkt
  ∧ Hdr.seq_num pkt' = Hdr.seq_num pkt
  ∧ Hdr.payload_len pkt' = Hdr.payload_len pkt
  ∧ (pkt' = pkt
     ∨ ((result r).1 = true
        ∧ Hdr.hop_count pkt' = Hdr.hop_count pkt + 1
        ∧ Hdr.hop_count pkt' ≤ MESH_MAX_HOPS)).
Proof.
  intros Hhop r pkt'. subst pkt' r.
  rewrite mesh_route_packet_pure.
  unfold mesh_route_packet. autorewrite with M_simpl.
  destruct (Hdr.dst_node pkt =? _);
    [autorewrite with M_simpl; simpl; split_and!; auto|].
  destruct (MESH_MAX_HOPS <=? Hdr.hop_count pkt) eqn:Hmax;
    [autorewrite with M_simpl; simpl; split_and!; auto|].
  autorewrite with M_simpl.
  destruct (result (mesh_find_route (Hdr.dst_node pkt) g) <? 0);
    autorewrite with M_simpl; simpl; split_and!; auto.
  right. apply Z.leb_gt in Hmax. unfold MESH_MAX_HOPS in *.
  assert (u8 (Hdr.hop_count pkt + 1) = Hdr.hop_count pkt + 1) as ->
    by (unfold u8; apply Z.mod_small; lia).
  split_and!; [done..|lia].
Qed.

Lemma route_packet_header_bounds_witness :
  (result (mesh_route_packet (data_packet 2 3) [104] one_neighbour)).2
  = data_packet 2 4.
Proof.
  destruct (route_packet_header_bounds (data_packet 2 3) [104]
              one_neighbour) as (_ & Hm & Hs & Hd & Hq & Hp & Hh).
  - by vm_compute.
  - destruct Hh as [Hh|(_ & Hh & _)].
    + exfalso. revert Hh. by vm_compute.
    + destruct (result _).2 as [m s d h q p]. simpl in *. by subst.
Defined.

(** ** Initialisation *)

Lemma length_strncpy src n : length (strncpy src n) = n.
Proof.
  revert src. induction n as [|n IH]; intros src; [by destruct src|].
  destruct src as [|c rest]; cbn [strncpy]; [apply length_replicate|].
  destruct (c =? 0); [apply length_replicate|]. cbn [length]. by rewrite IH.
Qed.

Lemma strncpy_no_terminator src n :
  Forall (λ c, c ≠ 0) src →
  strncpy src n = take n src ++ replicate (n - length src) 0.
Proof.
  revert src. induction n as [|n IH]; intros src Hsrc; [by destruct src|].
  destruct src as [|c rest]; [done|].
  apply Forall_cons in Hsrc as [Hc Hrest]. cbn [strncpy take length].
  apply Z.eqb_neq in Hc. rewrite Hc. by rewrite IH.
Qed.

(** X19: the node name [mesh_init] stores is always 16 bytes long and
    ends in a zero byte, whatever name it is given; for a name without a
    zero byte it is the first 15 characters of the name, padded with
    zeros. *)
Theorem mesh_init_stores_name node_id node_name g :
  let stored := local_node_name (state (mesh_init node_id node_name g)) in
  length stored = 16%nat
  ∧ last stored = Some 0
  ∧ (Forall (λ c, c ≠ 0) node_name →
     stored = take 15 node_name
              ++ replicate (16 - min 15 (length node_name)) 0).
Proof.
  intros stored.
  assert (Hst : stored = strncpy node_name 15 ++ [0]).
  { subst stored. unfold mesh_init. unfold_M. simpl. by destruct (negb _). }
  rewrite Hst. split_and!.
  - rewrite length_app, length_strncpy. done.
  - apply last_snoc.
  - intros Hname. rewrite strncpy_no_terminator by done.
    rewrite <- app_assoc. f_equal.
    change [0] with (replicate 1 0). rewrite <- replicate_add. f_equal. lia.
Qed.

Lemma mesh_init_stores_name_witness :
  local_node_name (state (mesh_init 1 MESH_NODE_NAME (boot 0)))
  = MESH_NODE_NAME ++ [0; 0; 0; 0; 0; 0; 0].
Proof.
  destruct (mesh_init_stores_name 1 MESH_NODE_NAME (boot 0))
    as (_ & _ & Hname).
  rewrite Hname; [done|]. unfold MESH_NODE_NAME.
  repeat (apply Forall_cons; split; [discriminate|]). apply Forall_nil_2.
Defined.

(** X20: the start-up of the example program.  [main] goes on past the
    start of the mesh exactly when the radio accepts [p2p_enable]; then,
    whatever the globals held before, P2P and the mesh are enabled, the
    P2P mode is listen, the routing table is empty with local node id
    [MESH_NODE_ID], the sequence counter is 0 and [last_beacon_time] is
    the time read by [mesh_enable].  When the radio refuses, [main]
    returns -1 and no global has changed. *)
Theorem main_start_mesh_outcome hif_ok t g :
  let r := main_start_mesh hif_ok t g in
  result r = (if hif_ok then None else Some (-1))
  ∧ state r
    = if hif_ok then
        {| p2p_enabled := true; mesh_enabled := true;
           p2p_mode := P2P_MODE_LISTEN;
           routing_table :=
             {| nodes := replicate (Z.to_nat MESH_MAX_NODES) zero_node;
                node_count := 0; local_node_id := MESH_NODE_ID |};
           mesh_seq_num := 0;
           local_node_name := MESH_NODE_NAME ++ replicate 7 0;
           last_beacon_time := t / 1000;
           verbose := verbose g |}
      else g.
Proof.
  intros r. subst r. unfold main_start_mesh.
  unfold p2p_enable, mesh_init, mesh_enable, p2p_start_listen.
  destruct hif_ok.
  - unfold_M. destruct (verbose g =? 0) eqn:Hv;
      repeat (progress (simpl; rewrite ?Hv)); by split.
  - unfold_M. destruct (verbose g =? 0) eqn:Hv;
      repeat (progress (simpl; rewrite ?Hv)); by split.
Qed.

(** ** Printing the table *)

Lemma print_rows_run i n g :
  (i + n ≤ length (nodes (routing_table g)))%nat →
  print_rows i n g
  = (tt, g, table_row <$> take n (drop i (nodes (routing_table g)))).
Proof.
  revert i. induction n as [|n IH]; intros i Hi; [done|].
  simpl. unfold_M. simpl. rewrite IH by lia.
  destruct (lookup_lt_is_Some_2 (nodes (routing_table g)) i) as [x Hx];
    [lia|].
  rewrite (drop_S _ _ _ Hx). rewrite (list_lookup_total_correct _ _ _ Hx).
  done.
Qed.

(** X21: [mesh_print_routing_table] changes no global.  Between its four
    heading lines and its closing line it prints one row for every stored
    entry, in slot order, inactive ones included (marked "No"); the figure
    on its "Active Nodes" line is [node_count], the number of stored
    entries, not the number of active ones. *)
Theorem print_routing_table_rows g :
  well_formed (routing_table g) →
  mesh_print_routing_table g
  = (tt, g,
     [Printf "=== Mesh Routing Table ===" [];
      Printf "Local Node ID: %u (%s)"
        [Num (local_node_id (routing_table g)); Str (local_node_name g)];
      Printf "Active Nodes: %u"
        [Num (Z.of_nat (length (entries (routing_table g))))];
      Printf "Node ID  Hops  Next Hop  Active" [];
      Printf "-------  ----  --------  ------" []]
     ++ (table_row <$> entries (routing_table g))
     ++ [Printf "========================" []]).
Proof.
  intros Hwf. rewrite length_entries by done. destruct Hwf as [Hlen Hcnt].
  unfold mesh_print_routing_table. unfold_M. simpl.
  rewrite print_rows_run by (unfold MESH_MAX_NODES in *; lia).
  rewrite drop_0. fold (entries (routing_table g)).
  rewrite Z2Nat.id by lia. done.
Qed.

Lemma print_routing_table_rows_witness :
  output (mesh_print_routing_table
            (state (mesh_beacon_handler 40000000 40000001 one_neighbour)))
  = [Printf "=== Mesh Routing Table ===" [];
     Printf "Local Node ID: %u (%s)"
       [Num 1; Str [78; 49; 0; 0; 0; 0; 0; 0; 0; 0; 0; 0; 0; 0; 0; 0]];
     Printf "Active Nodes: %u" [Num 1];
     Printf "Node ID  Hops  Next Hop  Active" [];
     Printf "-------  ----  --------  ------" [];
     Printf "   %3u    %2u      %3u      %s"
       [Num 2; Num 1; Num 2; Str str_No];
     Printf "========================" []].
Proof.
  rewrite print_routing_table_rows.
  - by vm_compute.
  - vm_compute. split; [reflexivity|]. split; discriminate.
Defined.

(** ** A saturated table *)

(** X22: once the table holds [MESH_MAX_NODES] entries it keeps exactly
    those node ids, in the same slots, through every later call: no node
    is ever dropped to make room, so no other node can join. *)
Theorem full_table_is_final g0 id name cs cs' :
  node_count (routing_table (after_init g0 id name cs)) = MESH_MAX_NODES →
  node_count (routing_table (after_init g0 id name (cs ++ cs')))
  = MESH_MAX_NODES
  ∧ entry_ids (routing_table (after_init g0 id name (cs ++ cs')))
    = entry_ids (routing_table (after_init g0 id name cs)).
Proof.
  intros Hfull. induction cs' as [|c cs' IH] using rev_ind.
  - by rewrite app_nil_r.
  - rewrite app_assoc, after_init_snoc. destruct IH as [IHc IHi].
    destruct (after_init_invariant g0 id name (cs ++ cs'))
      as (Hwf & _ & _ & _).
    destruct (step_entry_ids c _ Hwf)
      as (_ & _ & [[Hc Hi]|(t & b & _ & _ & Hroom & _)]); [|lia].
    split; congruence.
Qed.

Lemma full_table_is_final_witness :
  entry_ids
    (routing_table
       (after_init (boot 0) 10 [78; 49; 48]
          (((λ k, Call_mesh_update_routing_table (1000000 * k)
                    (beacon_from k 0)) <$> [1; 2; 3; 4; 5; 6; 7; 8])
           ++ [Call_mesh_update_routing_table 9000000 (beacon_from 9 0)])))
  = entry_ids (routing_table eight_neighbours).
Proof.
  unfold eight_neighbours.
  apply (full_table_is_final (boot 0) 10 [78; 49; 48]
           ((λ k, Call_mesh_update_routing_table (1000000 * k)
                    (beacon_from k 0)) <$> [1; 2; 3; 4; 5; 6; 7; 8])
           [Call_mesh_update_routing_table 9000000 (beacon_from 9 0)]).
  by vm_compute.
Defined.

(** ** What the mesh switch does not gate *)

(** X23: [mesh_route_packet] and [mesh_update_routing_table] never look at
    [mesh_enabled]: with the switch set either way a packet gets the same
    verdict, header and output, and a beacon is folded into the table in
    the same way. *)
Theorem forwarding_and_ingest_ignore_mesh_switch en pkt data t b g :
  mesh_route_packet pkt data (set_mesh_enabled en g)
  = (result (mesh_route_packet pkt data g), set_mesh_enabled en g,
     output (mesh_route_packet pkt data g))
  ∧ mesh_update_routing_table t b (set_mesh_enabled en g)
    = (tt, set_mesh_enabled en (state (mesh_update_routing_table t b g)),
       output (mesh_update_routing_table t b g)).
Proof.
  split.
  - unfold mesh_route_packet, mesh_data_handler, mesh_find_route.
    unfold_M. simpl.
    repeat match goal with
           | |- context [if ?c then _ else _] => destruct c; simpl
           | |- context [match ?o with Some _ => _ | None => _ end] =>
               destruct o; simpl
           end; reflexivity.
  - unfold mesh_update_routing_table. unfold_M. simpl.
    destruct (find_existing _ _ _ _) as [i|]; simpl.
    + destruct (_ =? 1); simpl; by destruct (1 <? verbose g).
    + destruct (node_count (routing_table g) <? MESH_MAX_NODES); simpl;
        [|done].
      destruct (_ =? 1); simpl; by destruct (1 <? verbose g).
Qed.

(** ** Ticks in a row *)

Lemma expired_twice ct nd : expired ct (expired ct nd) = expired ct nd.
Proof.
  unfold expired at 2 3. destruct (is_active nd && stale ct nd) eqn:E;
    [done|]. unfold expired. by rewrite E.
Qed.

(** X24: a second tick at the same clock reading finds nothing more to
    expire: the routing table after two such ticks is the table after
    one. *)
Theorem second_tick_expires_nothing t t1 t2 g :
  routing_table
    (state (mesh_beacon_handler t t2 (state (mesh_beacon_handler t t1 g))))
  = routing_table (state (mesh_beacon_handler t t1 g)).
Proof.
  set (g1 := state (mesh_beacon_handler t t1 g)).
  assert (Hen : mesh_enabled g1 = mesh_enabled g).
  { by destruct (step_switches (Call_mesh_beacon_handler t t1) g)
      as [_ ?]. }
  rewrite mesh_beacon_handler_table, Hen.
  destruct (mesh_enabled g) eqn:Hg; [|done].
  destruct (cleanup_stale_routes_table (t / 1000) g1)
    as (Hc2 & Hl2 & _ & Hlook2).
  set (rt2 := routing_table (state (cleanup_stale_routes _ _ _ g1))) in *.
  assert (Hrt1 : routing_table g1
                 = routing_table
                     (state (cleanup_stale_routes (t / 1000) 0
                               (Z.to_nat (node_count (routing_table g))) g))).
  { subst g1. by rewrite mesh_beacon_handler_table, Hg. }
  destruct (cleanup_stale_routes_table (t / 1000) g)
    as (Hc1 & _ & _ & Hlook1).
  rewrite <- Hrt1 in Hc1, Hlook1.
  assert (Hnodes : nodes rt2 = nodes (routing_table g1)).
  { apply list_eq. intros j. rewrite Hlook2, Hlook1, Hc1.
    destruct (nodes (routing_table g) !! j) as [nd|]; [|done]. simpl.
    case_bool_decide; simpl; [|done]. by rewrite expired_twice. }
  destruct rt2, (routing_table g1). simpl in *. congruence.
Qed.
